(** * A shallow embedding of the todo service (Kaban17/todo)

    The Go program is a CRUD service over an in-memory store.  Its layers are
    embedded one Rocq module per Go package:

    - [domain]     : the [Todo] record, [Validate], the sentinel errors and the
                     [TodoRepository] interface (internal/domain/domain.go);
    - [repository] : [InMemoryTodoRepository] (internal/repository/repository.go);
    - [usecase]    : [TodoUseCase] (internal/usecase/usecase.go);
    - [handler]    : the HTTP handlers (internal/http/handler/todo-handler.go).

    The store is a Go [map[int]*domain.Todo]: it holds _pointers_, and [Create]
    writes the assigned id through the pointer it was given.  The embedding
    therefore keeps an explicit heap of [Todo] cells next to the repository
    state, and every operation is a computation in a state monad over both.

    The middleware (logging, recovery, timeout) and the bootstrap in
    cmd/todo/main.go wrap the handlers without changing what they compute, and
    are not embedded.  Requests are taken one at a time: the mutex of the
    repository makes each of its methods atomic. *)

From Stdlib Require Import ZArith Ascii String Sorted.
From Stdlib Require Import Decimal DecimalString DecimalZ DecimalPos.
From stdpp Require Import base option gmap strings list.

Set Warnings "-register-all,-clear-no-such-hyp".

Local Open Scope string_scope.
Local Open Scope Z_scope.

(** ** Machine integers

    Go's [int] is 64 bits wide on the platforms the service is built for
    (the image is golang:alpine), and signed overflow wraps around. *)

Definition intSize : Z := 64.
Definition MaxInt : Z := 2 ^ (intSize - 1) - 1.
Definition MinInt : Z := - 2 ^ (intSize - 1).

(** [wrap z] is the value of the mathematical integer [z] once stored in an
    [int]. *)
Definition wrap (z : Z) : Z :=
  (z + 2 ^ (intSize - 1)) `mod` 2 ^ intSize - 2 ^ (intSize - 1).

Definition is_int (z : Z) : Prop := MinInt ≤ z ≤ MaxInt.

(** ** The heap and the state monad *)

(** Addresses of heap-allocated [domain.Todo] values.  An address outside the
    domain of the heap plays the role of Go's [nil]. *)
Definition ptr := positive.

(** The outcome of running a piece of Go code: it returns normally with a value
    and a new state, or it panics (nil dereference). *)
Inductive outcome (S A : Type) : Type :=
  | Done (a : A) (s : S)
  | Panic.
Arguments Done {S A} a s.
Arguments Panic {S A}.

(** A Go slice is either [nil] or a (possibly empty) sequence of elements; the
    JSON encoder tells the two apart. *)
Inductive slice (A : Type) : Type :=
  | nil_slice
  | make_slice (elems : list A).
Arguments nil_slice {A}.
Arguments make_slice {A} elems.

(** Go's [(T, error)] results: every [return] of the program gives either a
    value with a nil error or a nil value with an error. *)
Inductive result (A E : Type) : Type :=
  | Ok (a : A)
  | Err (e : E).
Arguments Ok {A E} a.
Arguments Err {A E} e.

Module domain.

(** type Todo struct { ID int; Title string; Description string; Completed bool } *)
Record Todo : Type := mkTodo {
  ID : Z;
  Title : string;
  Description : string;
  Completed : bool
}.

Definition set_ID (id : Z) (t : Todo) : Todo :=
  {| ID := id; Title := Title t; Description := Description t;
     Completed := Completed t |}.

(** Go error values.  The three package-level sentinels are compared by
    identity; [errors_New] stands for an error made on the spot. *)
Inductive error : Type :=
  | ErrTodoNotFound
  | ErrTodoAlreadyExists
  | ErrInvalidTodoData
  | errors_New (msg : string).

(** err.Error() *)
Definition Error (e : error) : string :=
  match e with
  | ErrTodoNotFound => "todo not found"
  | ErrTodoAlreadyExists => "todo with this ID already exists"
  | ErrInvalidTodoData => "invalid todo data"
  | errors_New msg => msg
  end.

(** errors.Is(err, target) for these unwrapped errors: identity. *)
Definition errors_Is (e target : error) : bool :=
  match e, target with
  | ErrTodoNotFound, ErrTodoNotFound => true
  | ErrTodoAlreadyExists, ErrTodoAlreadyExists => true
  | ErrInvalidTodoData, ErrInvalidTodoData => true
  | _, _ => false
  end.

(** func (t *Todo) Validate() error, on the value the receiver points to;
    [None] is the nil error. *)
Definition Validate (t : Todo) : option error :=
  if String.eqb (Title t) "" then Some (errors_New "title cannot be empty")
  else None.

(** The state every computation runs in: the heap of todo cells and the
    state [R] of the repository behind the interface. *)
Record World (R : Type) : Type := mkWorld {
  mem : gmap ptr Todo;
  repo : R
}.
Arguments mkWorld {R} mem repo.
Arguments mem {R} w.
Arguments repo {R} w.

Definition M (R A : Type) : Type := World R → outcome (World R) A.

Definition ret {R A} (a : A) : M R A := λ w, Done a w.

Definition bind {R A B} (m : M R A) (k : A → M R B) : M R B :=
  λ w, match m w with
       | Done a w' => k a w'
       | Panic => Panic
       end.

(** *p (read) *)
Definition load {R} (p : ptr) : M R Todo :=
  λ w, match mem w !! p with
       | Some t => Done t w
       | None => Panic
       end.

(** *p = t (write) *)
Definition store {R} (p : ptr) (t : Todo) : M R unit :=
  λ w, match mem w !! p with
       | Some _ => Done tt (mkWorld (<[p := t]> (mem w)) (repo w))
       | None => Panic
       end.

(** A new cell holding [t] (Go: [var todo domain.Todo], [&domain.Todo{...}]). *)
Definition alloc {R} (t : Todo) : M R ptr :=
  λ w, let p := fresh (dom (mem w)) in
       Done p (mkWorld (<[p := t]> (mem w)) (repo w)).

Definition get_repo {R} : M R R := λ w, Done (repo w) w.
Definition put_repo {R} (r : R) : M R unit := λ w, Done tt (mkWorld (mem w) r).

(** type TodoRepository interface *)
Class TodoRepository (R : Type) : Type := {
  Create : ptr → M R (option error);
  GetAll : M R (result (slice ptr) error);
  GetByID : Z → M R (result ptr error);
  Update : ptr → M R (option error);
  Delete : Z → M R (option error);
  Exists : Z → M R bool
}.

End domain.

Import domain.

Declare Scope go_scope.
Delimit Scope go_scope with go.
Notation "x <- m ;; k" := (bind m (λ x, k))
  (at level 100, m at next level, right associativity,
   format "'[v' x  <-  m  ;;  '/' k ']'") : go_scope.
Notation "m ;;; k" := (bind m (λ _, k))
  (at level 100, right associativity,
   format "'[v' m  ;;;  '/' k ']'") : go_scope.
Local Open Scope go_scope.

Module repository.

(** type InMemoryTodoRepository struct { mu; todos map[int]*domain.Todo; nextID int }
    The mutex only serialises the methods: each one runs under the lock from
    its first to its last statement, so a method is one atomic step. *)
Record InMemoryTodoRepository : Type := mkRepo {
  todos : gmap Z ptr;
  nextID : Z
}.

Definition NewInMemoryTodoRepository : InMemoryTodoRepository :=
  {| todos := ∅; nextID := 1 |}.

Definition set_nextID (n : Z) (r : InMemoryTodoRepository) :=
  {| todos := todos r; nextID := n |}.
Definition set_todos (m : gmap Z ptr) (r : InMemoryTodoRepository) :=
  {| todos := m; nextID := nextID r |}.

Abbreviation St := (M InMemoryTodoRepository).

(** r.todos[todo.ID] = todo; return nil   (the last two lines of Create) *)
Definition Create_insert (todo : ptr) : St (option error) :=
  t <- load todo ;;
  r <- get_repo ;;
  put_repo (set_todos (<[ID t := todo]> (todos r)) r) ;;;
  ret None.

Definition Create (todo : ptr) : St (option error) :=
  t <- load todo ;;
  r <- get_repo ;;
  if bool_decide (ID t = 0) then
    store todo (set_ID (nextID r) t) ;;;
    put_repo (set_nextID (wrap (nextID r + 1)) r) ;;;
    Create_insert todo
  else
    if bool_decide (is_Some (todos r !! ID t)) then
      ret (Some ErrTodoAlreadyExists)
    else
      (if bool_decide (ID t >= nextID r)
       then put_repo (set_nextID (wrap (ID t + 1)) r)
       else ret tt) ;;;
      Create_insert todo.

(** Go ranges over the map in an unspecified order; the model lists the
    entries in the order of [map_to_list]. *)
Definition GetAll : St (result (slice ptr) error) :=
  r <- get_repo ;;
  ret (Ok (make_slice (snd <$> map_to_list (todos r)))).

Definition GetByID (id : Z) : St (result ptr error) :=
  r <- get_repo ;;
  match todos r !! id with
  | None => ret (Err ErrTodoNotFound)
  | Some todo => ret (Ok todo)
  end.

Definition Update (todo : ptr) : St (option error) :=
  t <- load todo ;;
  r <- get_repo ;;
  if bool_decide (is_Some (todos r !! ID t)) then
    put_repo (set_todos (<[ID t := todo]> (todos r)) r) ;;;
    ret None
  else ret (Some ErrTodoNotFound).

Definition Delete (id : Z) : St (option error) :=
  r <- get_repo ;;
  if bool_decide (is_Some (todos r !! id)) then
    put_repo (set_todos (delete id (todos r)) r) ;;;
    ret None
  else ret (Some ErrTodoNotFound).

Definition Exists (id : Z) : St bool :=
  r <- get_repo ;;
  ret (bool_decide (is_Some (todos r !! id))).

#[global] Instance InMemory_TodoRepository : TodoRepository InMemoryTodoRepository :=
  {| domain.Create := Create;
     domain.GetAll := GetAll;
     domain.GetByID := GetByID;
     domain.Update := Update;
     domain.Delete := Delete;
     domain.Exists := Exists |}.

End repository.

Import repository.

Module usecase.
Section TodoUseCase.
(** type TodoUseCase struct { repo domain.TodoRepository }: the use case
    sees the store through the interface only. *)
Context {R : Type} `{!TodoRepository R}.

Definition CreateTodo (todo : ptr) : M R (result ptr error) :=
  t <- load todo ;;
  match Validate t with
  | Some err => ret (Err err)
  | None =>
      e <- domain.Create todo ;;
      match e with
      | Some err => ret (Err err)
      | None => ret (Ok todo)
      end
  end.

Definition GetAllTodos : M R (result (slice ptr) error) :=
  domain.GetAll.

Definition GetTodoByID (id : Z) : M R (result ptr error) :=
  domain.GetByID id.

Definition UpdateTodo (id : Z) (todo : ptr) : M R (result ptr error) :=
  t <- load todo ;;
  match Validate t with
  | Some err => ret (Err err)
  | None =>
      found <- domain.Exists id ;;
      if negb found then ret (Err ErrTodoNotFound)
      else
        t' <- load todo ;;
        store todo (set_ID id t') ;;;
        e <- domain.Update todo ;;
        match e with
        | Some err => ret (Err err)
        | None => ret (Ok todo)
        end
  end.

Definition DeleteTodo (id : Z) : M R (option error) :=
  domain.Delete id.
End TodoUseCase.
End usecase.

(** ** The parts of Go's standard library the handlers rely on

    These functions are not code of the repository; they are modelled on the
    documented behaviour of the Go standard library. *)

Module strings.
(** Whether the byte [c] occurs in [cutset]. *)
Fixpoint in_cutset (c : ascii) (cutset : string) : bool :=
  match cutset with
  | EmptyString => false
  | String d rest => Ascii.eqb c d || in_cutset c rest
  end.

Fixpoint TrimLeft (s cutset : string) : string :=
  match s with
  | EmptyString => EmptyString
  | String c rest => if in_cutset c cutset then TrimLeft rest cutset else s
  end.

Fixpoint TrimRight (s cutset : string) : string :=
  match s with
  | EmptyString => EmptyString
  | String c rest =>
      match TrimRight rest cutset with
      | EmptyString => if in_cutset c cutset then EmptyString else String c EmptyString
      | kept => String c kept
      end
  end.

(** strings.Trim(s, cutset): [s] without the leading and trailing bytes that
    occur in [cutset]. *)
Definition Trim (s cutset : string) : string :=
  TrimRight (TrimLeft s cutset) cutset.

(** strings.Split(s, sep) for a separator of one byte, which is how the
    program calls it: the pieces of [s] between the occurrences of [sep];
    the result always has at least one piece. *)
Fixpoint Split (s : string) (sep : ascii) : list string :=
  match s with
  | EmptyString => [EmptyString]
  | String c rest =>
      if Ascii.eqb c sep then EmptyString :: Split rest sep
      else match Split rest sep with
           | piece :: pieces => String c piece :: pieces
           | [] => [String c EmptyString]
           end
  end.
End strings.

Module strconv.
(** The value of a decimal digit, if [c] is one. *)
Definition digit (c : ascii) : option Z :=
  let n := Z.of_N (N_of_ascii c) - 48 in
  if (0 <=? n) && (n <=? 9) then Some n else None.

(** The value of a string of decimal digits read after the prefix whose
    value is [acc]; [None] if a byte is not a digit. *)
Fixpoint digits (s : string) (acc : Z) : option Z :=
  match s with
  | EmptyString => Some acc
  | String c rest =>
      match digit c with
      | Some d => digits rest (acc * 10 + d)
      | None => None
      end
  end.

Definition ErrSyntax : error := errors_New "invalid syntax".
Definition ErrRange : error := errors_New "value out of range".

(** strconv.Atoi: an optional sign, then one or more decimal digits; the
    value has to fit an [int]. *)
Definition Atoi (s : string) : result Z error :=
  match s with
  | EmptyString => Err ErrSyntax
  | String c rest =>
      let neg := Ascii.eqb c "-" in
      let body := if neg || Ascii.eqb c "+" then rest else s in
      match body with
      | EmptyString => Err ErrSyntax
      | _ =>
          match digits body 0 with
          | None => Err ErrSyntax
          | Some n =>
              let v := if neg then - n else n in
              if (MinInt <=? v) && (v <=? MaxInt) then Ok v else Err ErrRange
          end
      end
  end.

(** strconv.Itoa, which is also what fmt's %d prints: the decimal form of
    [n], with a minus sign in front of a negative value and without leading
    zeros. *)
Definition Itoa (n : Z) : string := NilZero.string_of_int (Z.to_int n).
End strconv.

Module http.
Definition MethodGet : string := "GET".
Definition MethodPost : string := "POST".
Definition MethodPut : string := "PUT".
Definition MethodDelete : string := "DELETE".

Definition StatusOK : Z := 200.
Definition StatusCreated : Z := 201.
Definition StatusNoContent : Z := 204.
Definition StatusBadRequest : Z := 400.
Definition StatusNotFound : Z := 404.
Definition StatusMethodNotAllowed : Z := 405.
Definition StatusConflict : Z := 409.
Definition StatusInternalServerError : Z := 500.

(** What a handler reads of an *http.Request.  [Body] is the outcome of
    [json.NewDecoder(r.Body).Decode(&todo)]: the decoded value ([Some]), with
    absent fields left at their zero value, or [None] when [Decode] returns
    an error. *)
Record Request : Type := mkRequest {
  Method : string;
  URL_Path : string;
  Body : option Todo
}.

(** JSON values, as encoding/json writes them. *)
Inductive json : Type :=
  | JNull
  | JBool (b : bool)
  | JNumber (n : Z)
  | JString (s : string)
  | JArray (items : list json)
  | JObject (fields : list (string * json)).

(** What a handler leaves in the http.ResponseWriter. *)
Record Response : Type := mkResponse {
  ContentType : option string;
  Code : Z;
  Written : option json
}.
End http.

Import http.

Module json.
(** The encoding of a [domain.Todo], field by field after its struct tags. *)
Definition encode_Todo (t : Todo) : json :=
  JObject [("id", JNumber (ID t)); ("title", JString (Title t));
           ("description", JString (Description t));
           ("completed", JBool (Completed t))].

(** The encoding of a *domain.Todo: [null] for nil. *)
Definition encode_ptr (m : gmap ptr Todo) (p : ptr) : json :=
  match m !! p with
  | Some t => encode_Todo t
  | None => JNull
  end.

(** The encoding of a []*domain.Todo: [null] for the nil slice, an array
    otherwise. *)
Definition encode_slice (m : gmap ptr Todo) (s : slice ptr) : json :=
  match s with
  | nil_slice => JNull
  | make_slice l => JArray (encode_ptr m <$> l)
  end.
End json.

Module handler.
(** The values the handlers pass to respondWithJSON as [payload]. *)
Inductive payload : Type :=
  | PTodo (todo : ptr)
  | PTodos (todos : slice ptr)
  | PError (message : string).

Section TodoHandler.
Context {R : Type} `{!TodoRepository R}.

Definition respondWithJSON (code : Z) (p : payload) : M R Response :=
  λ w, Done (mkResponse (Some "application/json") code
               (Some match p with
                     | PTodo todo => json.encode_ptr (mem w) todo
                     | PTodos l => json.encode_slice (mem w) l
                     | PError msg => JObject [("error", JString msg)]
                     end)) w.

Definition respondWithError (code : Z) (message : string) : M R Response :=
  respondWithJSON code (PError message).

Definition extractIDFromPath (path : string) : result Z error :=
  let parts := strings.Split (strings.Trim path "/") "/" in
  if bool_decide (length parts < 2)%nat then Err (errors_New "invalid path")
  else match parts !! 1%nat with
       | Some part => strconv.Atoi part
       | None => Err (errors_New "invalid path")
       end.

Definition zero_Todo : Todo := mkTodo 0 "" "" false.

Definition CreateTodo (r : Request) : M R Response :=
  todo <- alloc zero_Todo ;;
  match Body r with
  | None => respondWithError StatusBadRequest "Invalid request body"
  | Some decoded =>
      store todo decoded ;;;
      res <- usecase.CreateTodo todo ;;
      match res with
      | Err err =>
          if errors_Is err ErrTodoAlreadyExists
          then respondWithError StatusConflict (Error err)
          else respondWithError StatusBadRequest (Error err)
      | Ok createdTodo => respondWithJSON StatusCreated (PTodo createdTodo)
      end
  end.

Definition GetAllTodos (r : Request) : M R Response :=
  res <- usecase.GetAllTodos ;;
  match res with
  | Err _ => respondWithError StatusInternalServerError "Failed to fetch todos"
  | Ok todos => respondWithJSON StatusOK (PTodos todos)
  end.

Definition GetTodoByID (r : Request) (id : Z) : M R Response :=
  res <- usecase.GetTodoByID id ;;
  match res with
  | Err err =>
      if errors_Is err ErrTodoNotFound
      then respondWithError StatusNotFound "Todo not found"
      else respondWithError StatusInternalServerError "Failed to fetch todo"
  | Ok todo => respondWithJSON StatusOK (PTodo todo)
  end.

Definition UpdateTodo (r : Request) (id : Z) : M R Response :=
  todo <- alloc zero_Todo ;;
  match Body r with
  | None => respondWithError StatusBadRequest "Invalid request body"
  | Some decoded =>
      store todo decoded ;;;
      res <- usecase.UpdateTodo id todo ;;
      match res with
      | Err err =>
          if errors_Is err ErrTodoNotFound
          then respondWithError StatusNotFound "Todo not found"
          else respondWithError StatusBadRequest (Error err)
      | Ok updatedTodo => respondWithJSON StatusOK (PTodo updatedTodo)
      end
  end.

Definition DeleteTodo (r : Request) (id : Z) : M R Response :=
  e <- usecase.DeleteTodo id ;;
  match e with
  | Some err =>
      if errors_Is err ErrTodoNotFound
      then respondWithError StatusNotFound "Todo not found"
      else respondWithError StatusInternalServerError "Failed to delete todo"
  | None => ret (mkResponse None StatusNoContent None)
  end.

Definition HandleTodos (r : Request) : M R Response :=
  if String.eqb (Method r) MethodPost then CreateTodo r
  else if String.eqb (Method r) MethodGet then GetAllTodos r
  else respondWithError StatusMethodNotAllowed "Method not allowed".

Definition HandleTodoByID (r : Request) : M R Response :=
  match extractIDFromPath (URL_Path r) with
  | Err _ => respondWithError StatusBadRequest "Invalid todo ID"
  | Ok id =>
      if String.eqb (Method r) MethodGet then GetTodoByID r id
      else if String.eqb (Method r) MethodPut then UpdateTodo r id
      else if String.eqb (Method r) MethodDelete then DeleteTodo r id
      else respondWithError StatusMethodNotAllowed "Method not allowed"
  end.
End TodoHandler.
End handler.

(** ** Observing the storage engine

    The definitions below are not code of the service: they are the
    vocabulary in which its properties are stated. *)

(** One call of a method of [domain.TodoRepository], and what it returns. *)
Inductive call : Type :=
  | CallCreate (todo : ptr)
  | CallGetAll
  | CallGetByID (id : Z)
  | CallUpdate (todo : ptr)
  | CallDelete (id : Z)
  | CallExists (id : Z).

Inductive reply : Type :=
  | RError (e : option error)
  | RTodo (res : result ptr error)
  | RTodos (res : result (slice ptr) error)
  | RBool (b : bool).

Definition perform {R} `{!TodoRepository R} (c : call) : M R reply :=
  match c with
  | CallCreate todo => e <- domain.Create todo ;; ret (RError e)
  | CallGetAll => res <- domain.GetAll ;; ret (RTodos res)
  | CallGetByID id => res <- domain.GetByID id ;; ret (RTodo res)
  | CallUpdate todo => e <- domain.Update todo ;; ret (RError e)
  | CallDelete id => e <- domain.Delete id ;; ret (RError e)
  | CallExists id => b <- domain.Exists id ;; ret (RBool b)
  end.

(** A repository that writes down every call made through the interface before
    passing it on to the repository it wraps.  Running the use cases and the
    handlers on it shows which storage methods they reach, and in which
    order. *)
Module spy.
Record Recorded (R : Type) : Type := mkRecorded {
  inner : R;
  calls : list call
}.
Arguments mkRecorded {R} inner calls.
Arguments inner {R} r.
Arguments calls {R} r.

Definition under {R} (w : World (Recorded R)) : World R :=
  mkWorld (mem w) (inner (repo w)).

Definition record {R} (c : call) : M (Recorded R) unit :=
  λ w, Done tt (mkWorld (mem w)
                  (mkRecorded (inner (repo w)) (calls (repo w) ++ [c]))).

Definition lift {R A} (m : M R A) : M (Recorded R) A :=
  λ w, match m (under w) with
       | Done a w' => Done a (mkWorld (mem w') (mkRecorded (repo w') (calls (repo w))))
       | Panic => Panic
       end.

#[global] Instance Recorded_TodoRepository {R} `{!TodoRepository R} :
  TodoRepository (Recorded R) :=
  {| domain.Create todo := record (CallCreate todo) ;;; lift (domain.Create todo);
     domain.GetAll := record CallGetAll ;;; lift domain.GetAll;
     domain.GetByID id := record (CallGetByID id) ;;; lift (domain.GetByID id);
     domain.Update todo := record (CallUpdate todo) ;;; lift (domain.Update todo);
     domain.Delete id := record (CallDelete id) ;;; lift (domain.Delete id);
     domain.Exists id := record (CallExists id) ;;; lift (domain.Exists id) |}.
End spy.

(** *** Histories of storage calls *)

(** What a caller learns from one call, as far as ids are concerned:
    [Created id auto] is a successful [Create] that left the record with [id],
    [auto] telling whether the todo came in with id 0; [Deleted id] is a
    successful [Delete]. *)
Inductive event : Type :=
  | Created (id : Z) (auto : bool)
  | Deleted (id : Z)
  | Other.

Definition step (c : call) : St event :=
  match c with
  | CallCreate todo =>
      before <- load todo ;;
      rep <- perform c ;;
      after <- load todo ;;
      ret match rep with
          | RError None => Created (ID after) (bool_decide (ID before = 0))
          | _ => Other
          end
  | CallDelete id =>
      rep <- perform c ;;
      ret match rep with
          | RError None => Deleted id
          | _ => Other
          end
  | _ => perform c ;;; ret Other
  end.

Fixpoint run (cs : list call) : St (list event) :=
  match cs with
  | [] => ret []
  | c :: rest => e <- step c ;; es <- run rest ;; ret (e :: es)
  end.

(** The ids assigned by the successful creations of a history, in call order,
    and those among them that the store chose itself. *)
Fixpoint created_ids (log : list event) : list Z :=
  match log with
  | [] => []
  | Created id _ :: rest => id :: created_ids rest
  | _ :: rest => created_ids rest
  end.

Fixpoint auto_ids (log : list event) : list Z :=
  match log with
  | [] => []
  | Created id true :: rest => id :: auto_ids rest
  | _ :: rest => auto_ids rest
  end.

(** The ids whose record is present after a history that started with the ids
    [S] present. *)
Fixpoint live_from (S : gset Z) (log : list event) : gset Z :=
  match log with
  | [] => S
  | Created id _ :: rest => live_from (S ∪ {[id]}) rest
  | Deleted id :: rest => live_from (S ∖ {[id]}) rest
  | Other :: rest => live_from S rest
  end.

Definition live (log : list event) : gset Z := live_from ∅ log.

(** The todos handed to the calls of a history. *)
Definition call_ptrs (c : call) : list ptr :=
  match c with
  | CallCreate todo | CallUpdate todo => [todo]
  | _ => []
  end.

(** [Create] computes the next id without wrapping around: the id it reads,
    or, for a todo without id, the counter, is below the largest [int]. *)
Definition no_overflow (c : call) (w : World InMemoryTodoRepository) : Prop :=
  match c with
  | CallCreate todo =>
      match mem w !! todo with
      | Some t => if bool_decide (ID t = 0) then nextID (repo w) < MaxInt
                  else ID t < MaxInt
      | None => True
      end
  | _ => True
  end.

Fixpoint no_overflows (cs : list call) (w : World InMemoryTodoRepository) : Prop :=
  match cs with
  | [] => True
  | c :: rest =>
      no_overflow c w ∧
      match step c w with
      | Done _ w' => no_overflows rest w'
      | Panic => True
      end
  end.

Definition is_Create (c : call) : Prop :=
  match c with
  | CallCreate _ => True
  | _ => False
  end.

Definition is_Deleted (e : event) : Prop :=
  match e with
  | Deleted _ => True
  | _ => False
  end.

(** The store of a service that has just started, next to any heap. *)
Definition new_world (m : gmap ptr Todo) : World InMemoryTodoRepository :=
  mkWorld m NewInMemoryTodoRepository.

(** *** The records of the store *)

(** [stored w k t]: the store maps the key [k] to a todo whose value is [t]. *)
Definition stored (w : World InMemoryTodoRepository) (k : Z) (t : Todo) : Prop :=
  ∃ p, todos (repo w) !! k = Some p ∧ mem w !! p = Some t.

Definition ids_positive (w : World InMemoryTodoRepository) : Prop :=
  ∀ k t, stored w k t → 0 < ID t.

Definition ids_nonzero (w : World InMemoryTodoRepository) : Prop :=
  ∀ k t, stored w k t → ID t ≠ 0.

Definition ids_unique (w : World InMemoryTodoRepository) : Prop :=
  ∀ k1 k2 t1 t2, stored w k1 t1 → stored w k2 t2 → ID t1 = ID t2 → k1 = k2.

(** The invariant the store keeps: every key holds an allocated todo that
    carries the key as its id, no key is 0, and the counter is positive and
    above every key. *)
Record store_ok (w : World InMemoryTodoRepository) : Prop := mk_store_ok {
  ok_next : 1 ≤ nextID (repo w);
  ok_below : ∀ k, is_Some (todos (repo w) !! k) → k < nextID (repo w);
  ok_zero : todos (repo w) !! 0 = None;
  ok_id : ∀ k p, todos (repo w) !! k = Some p →
                 ∃ t, mem w !! p = Some t ∧ ID t = k
}.

(** The status code of a response, if the handler returned one. *)
Definition code_of {S} (o : outcome S Response) : option Z :=
  match o with
  | Done resp _ => Some (Code resp)
  | Panic => None
  end.

(** The value a computation returns. *)
Definition value_of {S A} (o : outcome S A) : option A :=
  match o with
  | Done a _ => Some a
  | Panic => None
  end.

(** The state a computation ends in. *)
Definition state_of {S A} (o : outcome S A) : option S :=
  match o with
  | Done _ s => Some s
  | Panic => None
  end.

(** *** Concrete histories used below *)

(** Two todos that both ask for id 5; the first is created, deleted, and the
    second created. *)
Definition reuse_heap : gmap ptr Todo :=
  {[ 1%positive := mkTodo 5 "first" "" false;
     2%positive := mkTodo 5 "second" "" false ]}.
Definition reuse_calls : list call :=
  [CallCreate 1%positive; CallDelete 5; CallCreate 2%positive].

(** A todo without id, one that asks for 7, and another without id; the first
    is deleted before the last is created. *)
Definition sample_heap : gmap ptr Todo :=
  {[ 1%positive := mkTodo 0 "a" "" false;
     2%positive := mkTodo 7 "b" "" false;
     3%positive := mkTodo 0 "c" "" true ]}.
Definition sample_calls : list call :=
  [CallCreate 1%positive; CallCreate 2%positive; CallDelete 1;
   CallCreate 3%positive].

(** A todo that asks for the smallest [int] as its id, one that asks for the
    largest, and one without id. *)
Definition overflow_heap : gmap ptr Todo :=
  {[ 1%positive := mkTodo MinInt "lowest" "" false;
     2%positive := mkTodo MaxInt "highest" "" false;
     3%positive := mkTodo 0 "next" "" false ]}.
Definition overflow_calls : list call :=
  [CallCreate 1%positive; CallCreate 2%positive; CallCreate 3%positive].

(** A todo that asks for the largest [int] as its id, one that asks for -1,
    and one without id. *)
Definition zero_heap : gmap ptr Todo :=
  {[ 1%positive := mkTodo MaxInt "highest" "" false;
     2%positive := mkTodo (-1) "minus one" "" false;
     3%positive := mkTodo 0 "next" "" false ]}.
Definition zero_calls : list call :=
  [CallCreate 1%positive; CallCreate 2%positive; CallCreate 3%positive].

(** A todo that asks for the id -1. *)
Definition negative_heap : gmap ptr Todo :=
  {[ 1%positive := mkTodo (-1) "below zero" "" false ]}.

(** A todo without title, in front of a recording store that holds one
    record. *)
Definition untitled_world : World (spy.Recorded InMemoryTodoRepository) :=
  mkWorld {[ 1%positive := mkTodo 1 "kept" "" false;
             2%positive := mkTodo 0 "" "no title" true ]}
          (spy.mkRecorded {| todos := {[ 1 := 1%positive ]}; nextID := 2 |} []).

(** A todo with a title and the id 9, in front of the same store. *)
Definition titled_world : World (spy.Recorded InMemoryTodoRepository) :=
  mkWorld {[ 1%positive := mkTodo 1 "kept" "" false;
             2%positive := mkTodo 9 "new title" "" true ]}
          (spy.mkRecorded {| todos := {[ 1 := 1%positive ]}; nextID := 2 |} []).

(** *** The state a handler decodes a body into *)

(** The cell a handler allocates for [var todo domain.Todo] in the state [w],
    and the state once the decoder has filled it with [t]. *)
Definition decoded_ptr {R} (w : World R) : ptr := fresh (dom (mem w)).

Definition decoded_world {R} (w : World R) (t : Todo) : World R :=
  mkWorld (<[decoded_ptr w := t]> (<[decoded_ptr w := handler.zero_Todo]> (mem w)))
          (repo w).

(** Whether the store holds a record under [id]. *)
Definition present (w : World InMemoryTodoRepository) (id : Z) : bool :=
  bool_decide (is_Some (todos (repo w) !! id)).

(** *** The status codes, condition by condition

    The two tables below spell out which status each route answers with, the
    conditions being looked at from top to bottom; the handlers are compared
    with them in [handlers_follow_tables]. *)



Definition put_untitled_absent : Request :=
  mkRequest "PUT" "/todos/999" (Some (mkTodo 0 "" "" true)).
Definition one_record_world : World InMemoryTodoRepository :=
  mkWorld {[ 1%positive := mkTodo 1 "kept" "" false ]}
          {| todos := {[ 1 := 1%positive ]}; nextID := 2 |}.

(** A GET of the item with id -7, with more pieces after the id. *)
Definition get_minus_seven : Request := mkRequest "GET" "/todos/-7/extra/pieces" None.
Definition recording_new_world : World (spy.Recorded InMemoryTodoRepository) :=
  mkWorld ∅ (spy.mkRecorded NewInMemoryTodoRepository []).

(** *** The scenarios of the repository's tests *)

(** TestIntegration_FullTodoLifecycle: create, get, update, list, delete, get,
    on a server that has just started; the status codes, in order. *)
Definition lifecycle : M InMemoryTodoRepository (list Z) :=
  r1 <- handler.HandleTodos
          (mkRequest "POST" "/todos"
             (Some (mkTodo 0 "Integration Test Todo" "Test description" false))) ;;
  r2 <- handler.HandleTodoByID (mkRequest "GET" "/todos/1" None) ;;
  r3 <- handler.HandleTodoByID
          (mkRequest "PUT" "/todos/1"
             (Some (mkTodo 0 "Updated Todo" "Updated description" true))) ;;
  r4 <- handler.HandleTodos (mkRequest "GET" "/todos" None) ;;
  r5 <- handler.HandleTodoByID (mkRequest "DELETE" "/todos/1" None) ;;
  r6 <- handler.HandleTodoByID (mkRequest "GET" "/todos/1" None) ;;
  ret [Code r1; Code r2; Code r3; Code r4; Code r5; Code r6].

(** TestTodoHandler_CreateTodo: the same id twice, then a body that is not
    JSON, then a path whose id is not a number. *)
Definition refusals : M InMemoryTodoRepository (list Z) :=
  r1 <- handler.HandleTodos
          (mkRequest "POST" "/todos" (Some (mkTodo 999 "First" "" false))) ;;
  r2 <- handler.HandleTodos
          (mkRequest "POST" "/todos" (Some (mkTodo 999 "Second" "" false))) ;;
  r3 <- handler.HandleTodos (mkRequest "POST" "/todos" None) ;;
  r4 <- handler.HandleTodoByID (mkRequest "GET" "/todos/invalid" None) ;;
  ret [Code r1; Code r2; Code r3; Code r4].

(** *** Further vocabulary and examples *)

(** The events of [k] creations of todos without id, the first of which gets
    the id [n]. *)
Fixpoint count_from (n : Z) (k : nat) : list event :=
  match k with
  | O => []
  | S k' => Created n true :: count_from (n + 1) k'
  end.


(** Three todos without id. *)
Definition three_untitled_ids : gmap ptr Todo :=
  {[ 1%positive := mkTodo 0 "a" "" false;
     2%positive := mkTodo 0 "b" "" false;
     3%positive := mkTodo 0 "c" "" true ]}.

(** A store with the records 1 and 2. *)
Definition two_records_world : World InMemoryTodoRepository :=
  mkWorld {[ 1%positive := mkTodo 1 "first" "" false;
             2%positive := mkTodo 2 "second" "" true ]}
          {| todos := {[ 1 := 1%positive; 2 := 2%positive ]}; nextID := 3 |}.

(** The responses that respondWithJSON and respondWithError leave. *)
Definition json_response (code : Z) (body : json) : Response :=
  mkResponse (Some "application/json") code (Some body).

Definition error_response (code : Z) (message : string) : Response :=
  json_response code (JObject [("error", JString message)]).

(** The id a POST /todos of [t] stores the record under: the counter for a
    todo without id, the id of the body otherwise. *)
Definition assigned_id (w : World InMemoryTodoRepository) (t : Todo) : Z :=
  if bool_decide (ID t = 0) then nextID (repo w) else ID t.

(** The id of the body of [r], or the counter if the body has none, is below
    the largest [int]. *)
Definition id_fits (r : Request) (w : World InMemoryTodoRepository) : Prop :=
  match Body r with
  | Some t => assigned_id w t < MaxInt
  | None => True
  end.

(** The path of the item with the id [id]. *)
Definition item_path (id : Z) : string := "/todos/" ++ strconv.Itoa id.

(** * Properties *)

(** ** The repository's tests, replayed *)

Example lifecycle_statuses :
  value_of (lifecycle (new_world ∅)) = Some [201; 200; 200; 200; 204; 404].
Proof. vm_compute. reflexivity. Qed.

Example refusals_statuses :
  value_of (refusals (new_world ∅)) = Some [201; 409; 400; 400].
Proof. vm_compute. reflexivity. Qed.

(** The first todo of a new store gets the id 1, as the integration test
    reads it back from /todos/1. *)
Example first_id_is_one :
  value_of (run [CallCreate 1%positive] (new_world sample_heap)) =
    Some [Created 1 true].
Proof. vm_compute. reflexivity. Qed.

(** The pieces of a path, and what [Atoi] reads. *)
Example split_trimmed_path :
  strings.Split (strings.Trim "//todos/-12/x/y//" "/") "/" = ["todos"; "-12"; "x"; "y"].
Proof. reflexivity. Qed.

Example Atoi_samples :
  strconv.Atoi "-12" = Ok (-12) ∧ strconv.Atoi "+0" = Ok 0 ∧
  strconv.Atoi "007" = Ok 7 ∧
  strconv.Atoi "-9223372036854775808" = Ok MinInt ∧
  strconv.Atoi "9223372036854775808" = Err strconv.ErrRange ∧
  strconv.Atoi "abc" = Err strconv.ErrSyntax ∧
  strconv.Atoi "-" = Err strconv.ErrSyntax ∧
  strconv.Atoi "" = Err strconv.ErrSyntax.
Proof. repeat split; reflexivity. Qed.

(** ** Machine integers *)

Lemma wrap_id z : is_int z → wrap z = z.
Proof.
  unfold is_int, MinInt, MaxInt, wrap, intSize. simpl.
  intros [Hlo Hhi]. rewrite Z.mod_small; lia.
Qed.

Lemma wrap_succ z : 0 ≤ z → z < MaxInt → wrap (z + 1) = z + 1.
Proof.
  intros Hlo Hhi. apply wrap_id. unfold is_int, MinInt, MaxInt, intSize in *.
  simpl in *. lia.
Qed.

Lemma wrap_MaxInt : wrap (MaxInt + 1) = MinInt.
Proof. reflexivity. Qed.

(** ** The storage engine, method by method *)

Section repository_equations.
Implicit Types (w : World InMemoryTodoRepository) (todo : ptr) (t : Todo).

Lemma Create_nil w todo : mem w !! todo = None → Create todo w = Panic.
Proof. intros H. unfold Create, bind, load. by rewrite H. Qed.

(** A todo that comes in without id gets the counter's value. *)
Lemma Create_auto w todo t :
  mem w !! todo = Some t → ID t = 0 →
  Create todo w =
    Done None (mkWorld (<[todo := set_ID (nextID (repo w)) t]> (mem w))
                 {| todos := <[nextID (repo w) := todo]> (todos (repo w));
                    nextID := wrap (nextID (repo w) + 1) |}).
Proof.
  intros Hm Hid.
  unfold Create, Create_insert, bind, load, store, get_repo, put_repo, ret.
  rewrite Hm. rewrite bool_decide_eq_true_2 by done.
  rewrite Hm. cbn [mem repo]. by rewrite lookup_insert_eq.
Qed.

Lemma Create_occupied w todo t :
  mem w !! todo = Some t → ID t ≠ 0 → is_Some (todos (repo w) !! ID t) →
  Create todo w = Done (Some ErrTodoAlreadyExists) w.
Proof.
  intros Hm Hid Hocc.
  unfold Create, bind, load, get_repo, ret.
  rewrite Hm. rewrite bool_decide_eq_false_2 by done.
  by rewrite bool_decide_eq_true_2.
Qed.

Lemma Create_supplied w todo t :
  mem w !! todo = Some t → ID t ≠ 0 → todos (repo w) !! ID t = None →
  Create todo w =
    Done None (mkWorld (mem w)
                 {| todos := <[ID t := todo]> (todos (repo w));
                    nextID := if bool_decide (ID t >= nextID (repo w))
                              then wrap (ID t + 1) else nextID (repo w) |}).
Proof.
  intros Hm Hid Hfree.
  unfold Create, Create_insert, bind, load, store, get_repo, put_repo, ret.
  rewrite Hm. rewrite bool_decide_eq_false_2 by done.
  rewrite (bool_decide_eq_false_2 (is_Some _)) by (rewrite Hfree; by intros [? ?]).
  case_bool_decide; cbn [mem repo]; by rewrite Hm.
Qed.

Lemma GetByID_found w id todo :
  todos (repo w) !! id = Some todo → GetByID id w = Done (Ok todo) w.
Proof. intros H. unfold GetByID, bind, get_repo, ret. by rewrite H. Qed.

Lemma GetByID_absent w id :
  todos (repo w) !! id = None → GetByID id w = Done (Err ErrTodoNotFound) w.
Proof. intros H. unfold GetByID, bind, get_repo, ret. by rewrite H. Qed.

Lemma Update_nil w todo : mem w !! todo = None → Update todo w = Panic.
Proof. intros H. unfold Update, bind, load. by rewrite H. Qed.

Lemma Update_found w todo t :
  mem w !! todo = Some t → is_Some (todos (repo w) !! ID t) →
  Update todo w =
    Done None (mkWorld (mem w)
                 {| todos := <[ID t := todo]> (todos (repo w));
                    nextID := nextID (repo w) |}).
Proof.
  intros Hm Hk. unfold Update, bind, load, get_repo, put_repo, ret.
  rewrite Hm. by rewrite bool_decide_eq_true_2.
Qed.

Lemma Update_absent w todo t :
  mem w !! todo = Some t → todos (repo w) !! ID t = None →
  Update todo w = Done (Some ErrTodoNotFound) w.
Proof.
  intros Hm Hk. unfold Update, bind, load, get_repo, ret.
  rewrite Hm. rewrite bool_decide_eq_false_2; [done|].
  rewrite Hk. by intros [? ?].
Qed.

Lemma Delete_found w id :
  is_Some (todos (repo w) !! id) →
  Delete id w =
    Done None (mkWorld (mem w)
                 {| todos := delete id (todos (repo w));
                    nextID := nextID (repo w) |}).
Proof.
  intros Hk. unfold Delete, bind, get_repo, put_repo, ret.
  by rewrite bool_decide_eq_true_2.
Qed.

Lemma Delete_absent w id :
  todos (repo w) !! id = None → Delete id w = Done (Some ErrTodoNotFound) w.
Proof.
  intros Hk. unfold Delete, bind, get_repo, ret.
  rewrite bool_decide_eq_false_2; [done|]. rewrite Hk. by intros [? ?].
Qed.

Lemma Exists_eq w id :
  Exists id w = Done (bool_decide (is_Some (todos (repo w) !! id))) w.
Proof. reflexivity. Qed.

Lemma GetAll_eq w :
  GetAll w = Done (Ok (make_slice (snd <$> map_to_list (todos (repo w))))) w.
Proof. reflexivity. Qed.
End repository_equations.

(** [Create] succeeds exactly when the todo comes without id or its id is
    free. *)
Lemma Create_succeeds (w : World InMemoryTodoRepository) todo t :
  mem w !! todo = Some t →
  ID t = 0 ∨ todos (repo w) !! ID t = None →
  ∃ w', Create todo w = Done None w'.
Proof.
  intros Hm [Hz | Hfree].
  - eexists. by apply Create_auto.
  - destruct (decide (ID t = 0)) as [Hz | Hnz].
    + eexists. by apply Create_auto.
    + eexists. by apply Create_supplied.
Qed.

Lemma set_ID_same t : set_ID (ID t) t = t.
Proof. by destruct t. Qed.

(** The three ways a call of [Create] on an allocated todo can go. *)
Lemma Create_cases (w : World InMemoryTodoRepository) todo t :
  mem w !! todo = Some t →
  (ID t = 0 ∧
   Create todo w =
     Done None (mkWorld (<[todo := set_ID (nextID (repo w)) t]> (mem w))
                  {| todos := <[nextID (repo w) := todo]> (todos (repo w));
                     nextID := wrap (nextID (repo w) + 1) |})) ∨
  (ID t ≠ 0 ∧ is_Some (todos (repo w) !! ID t) ∧
   Create todo w = Done (Some ErrTodoAlreadyExists) w) ∨
  (ID t ≠ 0 ∧ todos (repo w) !! ID t = None ∧
   Create todo w =
     Done None (mkWorld (mem w)
                  {| todos := <[ID t := todo]> (todos (repo w));
                     nextID := if bool_decide (ID t >= nextID (repo w))
                               then wrap (ID t + 1) else nextID (repo w) |})).
Proof.
  intros Hm. destruct (decide (ID t = 0)) as [Hz | Hnz].
  - left. split; [done|]. by apply Create_auto.
  - destruct (todos (repo w) !! ID t) as [q|] eqn:Hk.
    + right; left. split; [done|]. split; [by eexists|].
      apply Create_occupied with t; [done..|]. rewrite Hk. by eexists.
    + right; right. split; [done|]. split; [done|]. by apply Create_supplied.
Qed.

(** C2 (round trip).  After a successful [Create] of a todo, [GetByID] with
    the id that [Create] assigned succeeds, and the record it returns is the
    input with nothing but the id field changed to the assigned id. *)
Theorem create_get_round_trip
    (w w' : World InMemoryTodoRepository) (todo : ptr) (t : Todo) :
  mem w !! todo = Some t →
  Create todo w = Done None w' →
  ∃ id,
    id = (if bool_decide (ID t = 0) then nextID (repo w) else ID t) ∧
    GetByID id w' = Done (Ok todo) w' ∧
    mem w' !! todo = Some (set_ID id t).
Proof.
  intros Hm Hc.
  destruct (Create_cases w todo t Hm) as [[Hz E] | [[Hnz [_ E]] | [Hnz [Hfree E]]]];
    rewrite E in Hc; simplify_eq.
  - exists (nextID (repo w)).
    rewrite bool_decide_eq_true_2 by done. split; [done|]. split.
    + apply GetByID_found. cbn. by rewrite lookup_insert_eq.
    + cbn. by rewrite lookup_insert_eq.
  - exists (ID t).
    rewrite bool_decide_eq_false_2 by done. split; [done|]. split.
    + apply GetByID_found. cbn. by rewrite lookup_insert_eq.
    + cbn. by rewrite set_ID_same.
Qed.

(** The round trip for the third todo of [sample_heap] on a new store. *)
Lemma create_get_round_trip_witness :
  ∃ w',
    Create 3%positive (new_world sample_heap) = Done None w' ∧
    GetByID 1 w' = Done (Ok 3%positive) w' ∧
    mem w' !! 3%positive = Some (mkTodo 1 "c" "" true).
Proof.
  destruct (Create 3%positive (new_world sample_heap)) as [e w'|] eqn:Hc;
    [|by vm_compute in Hc].
  assert (He : e = None) by (vm_compute in Hc; by simplify_eq).
  subst e. exists w'. split; [done|].
  destruct (create_get_round_trip (new_world sample_heap) w' 3%positive
              (mkTodo 0 "c" "" true)) as (id & -> & Hget & Hmem).
  - vm_compute. reflexivity.
  - exact Hc.
  - split; [exact Hget|exact Hmem].
Defined.

(** ** The invariant of the store *)

Lemma new_world_ok m : store_ok (new_world m).
Proof.
  split; cbn.
  - lia.
  - intros k [p Hp]. by rewrite lookup_empty in Hp.
  - apply lookup_empty.
  - intros k p Hp. by rewrite lookup_empty in Hp.
Qed.

Lemma store_ok_nonzero w : store_ok w → ids_nonzero w.
Proof.
  intros Hok k t (p & Hk & Hp).
  destruct (ok_id w Hok k p Hk) as (t' & Hp' & <-). simplify_eq.
  intros Hz. rewrite Hz in Hk. by rewrite (ok_zero w Hok) in Hk.
Qed.

Lemma store_ok_key w k t : store_ok w → stored w k t → ID t = k.
Proof.
  intros Hok (p & Hk & Hp).
  destruct (ok_id w Hok k p Hk) as (t' & Hp' & <-). by simplify_eq.
Qed.

Lemma store_ok_unique w : store_ok w → ids_unique w.
Proof.
  intros Hok k1 k2 t1 t2 H1 H2 Heq.
  rewrite <- (store_ok_key w k1 t1 Hok H1), <- (store_ok_key w k2 t2 Hok H2).
  done.
Qed.

Lemma Create_preserves_ok w todo e w' :
  store_ok w → no_overflow (CallCreate todo) w →
  Create todo w = Done e w' → store_ok w'.
Proof.
  intros Hok Hno Hc. destruct (mem w !! todo) as [t|] eqn:Hm;
    [|by rewrite Create_nil in Hc].
  cbn in Hno. rewrite Hm in Hno.
  pose proof (ok_next w Hok) as Hn.
  destruct (Create_cases w todo t Hm) as [[Hz E] | [[Hnz [_ E]] | [Hnz [Hfree E]]]];
    rewrite E in Hc; simplify_eq; [| done |].
  - rewrite bool_decide_eq_true_2 in Hno by done.
    rewrite wrap_succ by lia.
    split; cbn.
    + lia.
    + intros k [p Hp]. destruct (decide (k = nextID (repo w))) as [->|Hne]; [lia|].
      rewrite lookup_insert_ne in Hp by done.
      assert (k < nextID (repo w)) by (apply (ok_below w Hok); by eexists). lia.
    + rewrite lookup_insert_ne by lia. apply (ok_zero w Hok).
    + intros k p Hp. destruct (decide (k = nextID (repo w))) as [->|Hne].
      * rewrite lookup_insert_eq in Hp. simplify_eq.
        exists (set_ID (nextID (repo w)) t). by rewrite lookup_insert_eq.
      * rewrite lookup_insert_ne in Hp by done.
        destruct (ok_id w Hok k p Hp) as (t0 & Hp0 & Hid0).
        destruct (decide (p = todo)) as [->|Hpne].
        -- simplify_eq. rewrite Hz in Hp. by rewrite (ok_zero w Hok) in Hp.
        -- exists t0. by rewrite lookup_insert_ne.
  - rewrite bool_decide_eq_false_2 in Hno by done.
    assert (Hnext : nextID (repo w) ≤
                    (if bool_decide (ID t >= nextID (repo w))
                     then wrap (ID t + 1) else nextID (repo w)) ∧
                    ID t < (if bool_decide (ID t >= nextID (repo w))
                            then wrap (ID t + 1) else nextID (repo w))).
    { case_bool_decide; [rewrite wrap_succ by lia|]; lia. }
    split; cbn.
    + lia.
    + intros k [p Hp]. destruct (decide (k = ID t)) as [->|Hne]; [lia|].
      rewrite lookup_insert_ne in Hp by done.
      assert (k < nextID (repo w)) by (apply (ok_below w Hok); by eexists). lia.
    + rewrite lookup_insert_ne by done. apply (ok_zero w Hok).
    + intros k p Hp. destruct (decide (k = ID t)) as [->|Hne].
      * rewrite lookup_insert_eq in Hp. simplify_eq. by exists t.
      * rewrite lookup_insert_ne in Hp by done. by apply (ok_id w Hok).
Qed.

Lemma Update_preserves_ok w todo e w' :
  store_ok w → Update todo w = Done e w' → store_ok w'.
Proof.
  intros Hok Hu. destruct (mem w !! todo) as [t|] eqn:Hm;
    [|by rewrite Update_nil in Hu].
  destruct (todos (repo w) !! ID t) as [q|] eqn:Hk.
  - rewrite (Update_found w todo t) in Hu by (try rewrite Hk; eauto).
    simplify_eq. split; cbn.
    + apply (ok_next w Hok).
    + intros k [p Hp]. apply (ok_below w Hok).
      destruct (decide (k = ID t)) as [->|Hne]; [by eexists|].
      rewrite lookup_insert_ne in Hp by done. by eexists.
    + rewrite lookup_insert_ne; [apply (ok_zero w Hok)|].
      intros Hz. rewrite Hz in Hk. by rewrite (ok_zero w Hok) in Hk.
    + intros k p Hp. destruct (decide (k = ID t)) as [->|Hne].
      * rewrite lookup_insert_eq in Hp. simplify_eq. by exists t.
      * rewrite lookup_insert_ne in Hp by done. by apply (ok_id w Hok).
  - rewrite (Update_absent w todo t) in Hu by done. by simplify_eq.
Qed.

Lemma Delete_preserves_ok w id e w' :
  store_ok w → Delete id w = Done e w' → store_ok w'.
Proof.
  intros Hok Hd. destruct (todos (repo w) !! id) as [q|] eqn:Hk.
  - rewrite Delete_found in Hd by (rewrite Hk; eauto).
    simplify_eq. split; cbn.
    + apply (ok_next w Hok).
    + intros k [p Hp]. apply lookup_delete_Some in Hp as [_ Hp].
      apply (ok_below w Hok). by eexists.
    + apply lookup_delete_None. right. apply (ok_zero w Hok).
    + intros k p Hp. apply lookup_delete_Some in Hp as [_ Hp].
      by apply (ok_id w Hok).
  - rewrite Delete_absent in Hd by done. by simplify_eq.
Qed.

Lemma perform_preserves_ok c w rep w' :
  store_ok w → no_overflow c w → perform c w = Done rep w' → store_ok w'.
Proof.
  intros Hok Hno Hp. destruct c as [todo| |id|todo|id|id]; cbn in Hp;
    unfold bind, ret in Hp.
  - destruct (Create todo w) as [e w1|] eqn:E; simplify_eq.
    by apply (Create_preserves_ok w todo e).
  - by simplify_eq.
  - change (domain.GetByID id w) with (GetByID id w) in Hp.
    destruct (todos (repo w) !! id) as [q|] eqn:Hk.
    + rewrite (GetByID_found w id q) in Hp by done. by simplify_eq.
    + rewrite GetByID_absent in Hp by done. by simplify_eq.
  - destruct (Update todo w) as [e w1|] eqn:E; simplify_eq.
    by apply (Update_preserves_ok w todo e).
  - destruct (Delete id w) as [e w1|] eqn:E; simplify_eq.
    by apply (Delete_preserves_ok w id e).
  - by simplify_eq.
Qed.

(** ** Histories *)

Lemma step_Create_cases w todo t :
  mem w !! todo = Some t →
  (ID t = 0 ∧
   step (CallCreate todo) w =
     Done (Created (nextID (repo w)) true)
       (mkWorld (<[todo := set_ID (nextID (repo w)) t]> (mem w))
          {| todos := <[nextID (repo w) := todo]> (todos (repo w));
             nextID := wrap (nextID (repo w) + 1) |})) ∨
  (ID t ≠ 0 ∧ is_Some (todos (repo w) !! ID t) ∧
   step (CallCreate todo) w = Done Other w) ∨
  (ID t ≠ 0 ∧ todos (repo w) !! ID t = None ∧
   step (CallCreate todo) w =
     Done (Created (ID t) false)
       (mkWorld (mem w)
          {| todos := <[ID t := todo]> (todos (repo w));
             nextID := if bool_decide (ID t >= nextID (repo w))
                       then wrap (ID t + 1) else nextID (repo w) |})).
Proof.
  intros Hm.
  destruct (Create_cases w todo t Hm) as [[Hz E] | [[Hnz [Hocc E]] | [Hnz [Hfree E]]]].
  - left. split; [done|].
    cbn. unfold bind, load, ret. rewrite Hm.
    change (domain.Create todo w) with (Create todo w). rewrite E. cbn.
    rewrite lookup_insert_eq. cbn. by rewrite bool_decide_eq_true_2.
  - right; left. split; [done|]. split; [done|].
    cbn. unfold bind, load, ret. rewrite Hm.
    change (domain.Create todo w) with (Create todo w). rewrite E. by rewrite Hm.
  - right; right. split; [done|]. split; [done|].
    cbn. unfold bind, load, ret. rewrite Hm.
    change (domain.Create todo w) with (Create todo w). rewrite E. cbn.
    rewrite Hm. by rewrite bool_decide_eq_false_2.
Qed.

Lemma step_Create_nil w todo :
  mem w !! todo = None → step (CallCreate todo) w = Panic.
Proof. intros Hm. cbn. unfold bind, load. by rewrite Hm. Qed.

Lemma step_Delete_cases w id :
  (is_Some (todos (repo w) !! id) ∧
   step (CallDelete id) w =
     Done (Deleted id)
       (mkWorld (mem w) {| todos := delete id (todos (repo w));
                           nextID := nextID (repo w) |})) ∨
  (todos (repo w) !! id = None ∧ step (CallDelete id) w = Done Other w).
Proof.
  destruct (todos (repo w) !! id) as [q|] eqn:Hk.
  - left. split; [by eexists|]. cbn. unfold bind, ret.
    change (domain.Delete id w) with (Delete id w).
    rewrite Delete_found; [done|]. rewrite Hk. by eexists.
  - right. split; [done|]. cbn. unfold bind, ret.
    change (domain.Delete id w) with (Delete id w).
    by rewrite Delete_absent.
Qed.

Lemma step_Update_cases w todo :
  step (CallUpdate todo) w = Panic ∨
  step (CallUpdate todo) w = Done Other w ∨
  ∃ k, is_Some (todos (repo w) !! k) ∧
       step (CallUpdate todo) w =
         Done Other (mkWorld (mem w) {| todos := <[k := todo]> (todos (repo w));
                                        nextID := nextID (repo w) |}).
Proof.
  destruct (mem w !! todo) as [t|] eqn:Hm.
  - destruct (todos (repo w) !! ID t) as [q|] eqn:Hk.
    + right; right. exists (ID t). split; [by eexists|].
      cbn. unfold bind, ret. change (domain.Update todo w) with (Update todo w).
      rewrite (Update_found w todo t); [done..|]. rewrite Hk. by eexists.
    + right; left. cbn. unfold bind, ret.
      change (domain.Update todo w) with (Update todo w).
      by rewrite (Update_absent w todo t).
  - left. cbn. unfold bind, ret. change (domain.Update todo w) with (Update todo w).
    by rewrite Update_nil.
Qed.

Lemma step_GetAll w : step CallGetAll w = Done Other w.
Proof. reflexivity. Qed.

Lemma step_Exists w id : step (CallExists id) w = Done Other w.
Proof. reflexivity. Qed.

Lemma step_GetByID w id : step (CallGetByID id) w = Done Other w.
Proof.
  cbn. unfold bind, ret. change (domain.GetByID id w) with (GetByID id w).
  destruct (todos (repo w) !! id) as [q|] eqn:Hk.
  - by rewrite (GetByID_found w id q).
  - by rewrite GetByID_absent.
Qed.

(** What one step does to the set of keys. *)
Lemma step_dom c w e w' :
  step c w = Done e w' →
  dom (todos (repo w')) = live_from (dom (todos (repo w))) [e].
Proof.
  intros Hs. destruct c as [todo| |id|todo|id|id].
  - destruct (mem w !! todo) as [t|] eqn:Hm; [|by rewrite step_Create_nil in Hs].
    destruct (step_Create_cases w todo t Hm)
      as [[Hz E] | [[Hnz [Hocc E]] | [Hnz [Hfree E]]]];
      rewrite E in Hs; simplify_eq; cbn; [| done |];
      rewrite dom_insert_L; set_solver.
  - rewrite step_GetAll in Hs. by simplify_eq.
  - rewrite step_GetByID in Hs. by simplify_eq.
  - destruct (step_Update_cases w todo) as [E | [E | (k & Hk & E)]];
      rewrite E in Hs; simplify_eq; cbn; [done|].
    rewrite dom_insert_L. apply elem_of_dom in Hk. set_solver.
  - destruct (step_Delete_cases w id) as [[Hk E] | [Hk E]];
      rewrite E in Hs; simplify_eq; cbn; [|done].
    by rewrite dom_delete_L.
  - rewrite step_Exists in Hs. by simplify_eq.
Qed.

Lemma live_from_app S l1 l2 :
  live_from S ((l1 ++ l2)%list) = live_from (live_from S l1) l2.
Proof.
  revert S. induction l1 as [|[id b|id|] l1 IH]; intros S; cbn; auto.
Qed.

Lemma run_cons c cs w :
  run (c :: cs) w =
    match step c w with
    | Done e w1 =>
        match run cs w1 with
        | Done es w2 => Done (e :: es) w2
        | Panic => Panic
        end
    | Panic => Panic
    end.
Proof. reflexivity. Qed.

Lemma run_dom cs w log w' :
  run cs w = Done log w' →
  dom (todos (repo w')) = live_from (dom (todos (repo w))) log.
Proof.
  revert w log. induction cs as [|c cs IH]; intros w log Hr.
  - cbn in Hr. unfold ret in Hr. by simplify_eq.
  - rewrite run_cons in Hr.
    destruct (step c w) as [e w1|] eqn:Hs; [|done].
    destruct (run cs w1) as [es w2|] eqn:Hr1; [|done]. simplify_eq.
    change (e :: es) with (([e] ++ es)%list). rewrite live_from_app.
    rewrite <- (step_dom c w e w1 Hs). by apply IH.
Qed.

Lemma step_perform c w e w' :
  step c w = Done e w' → ∃ rep, perform c w = Done rep w'.
Proof.
  intros Hs. destruct c as [todo| |id|todo|id|id]; cbn in Hs |- *;
    unfold bind, ret, load in *.
  - destruct (mem w !! todo); [|done].
    destruct (Create todo w) as [e0 w1|]; [|done].
    destruct (mem w1 !! todo); [|done]. simplify_eq. by eexists.
  - simplify_eq. by eexists.
  - destruct (GetByID id w); [|done]. simplify_eq. by eexists.
  - destruct (Update todo w); [|done]. simplify_eq. by eexists.
  - destruct (Delete id w); [|done]. simplify_eq. by eexists.
  - simplify_eq. by eexists.
Qed.

(** What one step does to the counter, and where a created id lies. *)
Lemma step_facts c w e w' :
  store_ok w → no_overflow c w → step c w = Done e w' →
  store_ok w' ∧ nextID (repo w) ≤ nextID (repo w') ∧
  match e with
  | Created id auto =>
      (id ∉ dom (todos (repo w))) ∧ id < nextID (repo w') ∧
      (auto = true → id = nextID (repo w))
  | _ => True
  end.
Proof.
  intros Hok Hno Hs. split.
  { destruct (step_perform c w e w' Hs) as [rep Hp].
    by apply (perform_preserves_ok c w rep). }
  pose proof (ok_next w Hok) as Hn.
  destruct c as [todo| |id|todo|id|id].
  - destruct (mem w !! todo) as [t|] eqn:Hm; [|by rewrite step_Create_nil in Hs].
    cbn in Hno. rewrite Hm in Hno.
    destruct (step_Create_cases w todo t Hm)
      as [[Hz E] | [[Hnz [Hocc E]] | [Hnz [Hfree E]]]];
      rewrite E in Hs; simplify_eq; cbn.
    + rewrite bool_decide_eq_true_2 in Hno by done.
      rewrite wrap_succ by lia. split; [lia|]. split; [|split; [lia|done]].
      intros Hin%elem_of_dom. apply (ok_below w Hok) in Hin. lia.
    + split; [lia|done].
    + rewrite bool_decide_eq_false_2 in Hno by done.
      assert (nextID (repo w) ≤
              (if bool_decide (ID t >= nextID (repo w))
               then wrap (ID t + 1) else nextID (repo w)) ∧
              ID t < (if bool_decide (ID t >= nextID (repo w))
                      then wrap (ID t + 1) else nextID (repo w))) as [? ?].
      { case_bool_decide; [rewrite wrap_succ by lia|]; lia. }
      split; [done|]. split; [|split; [done|done]].
      intros Hin%elem_of_dom. rewrite Hfree in Hin. by destruct Hin.
  - rewrite step_GetAll in Hs. simplify_eq. split; [lia|done].
  - rewrite step_GetByID in Hs. simplify_eq. split; [lia|done].
  - destruct (step_Update_cases w todo) as [E | [E | (k & Hk & E)]];
      rewrite E in Hs; simplify_eq; cbn; (split; [lia|done]).
  - destruct (step_Delete_cases w id) as [[Hk E] | [Hk E]];
      rewrite E in Hs; simplify_eq; cbn; (split; [lia|done]).
  - rewrite step_Exists in Hs. simplify_eq. split; [lia|done].
Qed.

Lemma auto_ids_app l1 l2 :
  auto_ids ((l1 ++ l2)%list) = (auto_ids l1 ++ auto_ids l2)%list.
Proof.
  induction l1 as [|[id [|]|id|] l1 IH]; cbn; auto. by rewrite IH.
Qed.

Lemma created_ids_app l1 l2 :
  created_ids ((l1 ++ l2)%list) = (created_ids l1 ++ created_ids l2)%list.
Proof.
  induction l1 as [|[id b|id|] l1 IH]; cbn; auto. by rewrite IH.
Qed.

Lemma created_ids_elem id log :
  id ∈ created_ids log →
  ∃ l1 b l2, log = (l1 ++ Created id b :: l2)%list.
Proof.
  induction log as [|e log IH]; cbn; [by intros ?%elem_of_nil|].
  destruct e as [id' b|id'|].
  - intros [->|Hin]%elem_of_cons.
    + by exists [], b, log.
    + destruct (IH Hin) as (l1 & b' & l2 & ->).
      by exists (Created id' b :: l1), b', l2.
  - intros Hin. destruct (IH Hin) as (l1 & b' & l2 & ->).
    by exists (Deleted id' :: l1), b', l2.
  - intros Hin. destruct (IH Hin) as (l1 & b' & l2 & ->).
    by exists (Other :: l1), b', l2.
Qed.

(** The facts about a history that go through the induction on the calls. *)
Lemma run_facts cs : ∀ w log w',
  store_ok w → no_overflows cs w → run cs w = Done log w' →
  (∀ l1 id b l2, log = (l1 ++ Created id b :: l2)%list →
                 id ∉ live_from (dom (todos (repo w))) l1) ∧
  StronglySorted Z.lt (auto_ids log) ∧
  Forall (λ id, nextID (repo w) ≤ id) (auto_ids log) ∧
  (∀ l1 id l2, log = (l1 ++ Created id true :: l2)%list →
               ∀ id', id' ∈ created_ids l1 → id' < id).
Proof.
  induction cs as [|c cs IH]; intros w log w' Hok Hno Hr.
  - cbn in Hr. unfold ret in Hr. simplify_eq. cbn.
    split; [|split; [constructor|split; [constructor|]]].
    + intros [|? ?] ? ? ? ?; simplify_eq.
    + intros [|? ?] ? ? ?; simplify_eq.
  - rewrite run_cons in Hr. cbn in Hno. destruct Hno as [Hno1 Hno].
    destruct (step c w) as [e w1|] eqn:Hs; [|done].
    destruct (run cs w1) as [es w2|] eqn:Hr1; [|done]. simplify_eq.
    destruct (step_facts c w e w1 Hok Hno1 Hs) as (Hok1 & Hmono & He).
    destruct (IH w1 es w' Hok1 Hno Hr1) as (A1 & A2 & A2b & A3).
    pose proof (step_dom c w e w1 Hs) as Hdom.
    assert (Hlow : Forall (λ id, nextID (repo w) ≤ id) (auto_ids es)).
    { eapply Forall_impl; [exact A2b|]. cbn. intros; lia. }
    split; [|split; [|split]].
    + intros [|e' l1] id b l2 Heq; cbn in Heq; simplify_eq; cbn in *.
      * by destruct He as [? _].
      * specialize (A1 l1 id b l2 eq_refl). rewrite Hdom in A1.
        by destruct e' as [? ?|?|].
    + destruct e as [id [|]|id|]; cbn; try done.
      destruct He as (_ & Hlt & _). constructor; [done|].
      eapply Forall_impl; [exact A2b|]. cbn. intros; lia.
    + destruct e as [id [|]|id|]; cbn; try done.
      destruct He as (_ & _ & Heq). constructor; [|done].
      rewrite Heq by done. lia.
    + intros [|e' l1] id l2 Heq id' Hin; cbn in Heq; simplify_eq; cbn in Hin.
      * by apply elem_of_nil in Hin.
      * assert (Hge : nextID (repo w1) ≤ id).
        { rewrite Forall_forall in A2b. apply A2b.
          rewrite auto_ids_app. cbn. set_solver. }
        destruct e' as [id0 b0|id0|]; cbn in Hin.
        -- apply elem_of_cons in Hin as [->|Hin]; [|by eapply A3].
           destruct He as (_ & Hlt & _). lia.
        -- by eapply A3.
        -- by eapply A3.
Qed.

(** No step frees a cell, and a step panics only on a todo that is nil. *)
Lemma step_mem c w e w' p :
  step c w = Done e w' → is_Some (mem w !! p) → is_Some (mem w' !! p).
Proof.
  intros Hs Hp. destruct c as [todo| |id|todo|id|id].
  - destruct (mem w !! todo) as [t|] eqn:Hm; [|by rewrite step_Create_nil in Hs].
    destruct (step_Create_cases w todo t Hm)
      as [[Hz E] | [[Hnz [Hocc E]] | [Hnz [Hfree E]]]];
      rewrite E in Hs; simplify_eq; cbn; [| done | done].
    destruct (decide (p = todo)) as [->|Hne].
    + rewrite lookup_insert_eq. by eexists.
    + by rewrite lookup_insert_ne.
  - rewrite step_GetAll in Hs. by simplify_eq.
  - rewrite step_GetByID in Hs. by simplify_eq.
  - destruct (step_Update_cases w todo) as [E | [E | (k & Hk & E)]];
      rewrite E in Hs; by simplify_eq.
  - destruct (step_Delete_cases w id) as [[Hk E] | [Hk E]];
      rewrite E in Hs; by simplify_eq.
  - rewrite step_Exists in Hs. by simplify_eq.
Qed.

Lemma step_total c w :
  (∀ todo, todo ∈ call_ptrs c → is_Some (mem w !! todo)) →
  ∃ e w', step c w = Done e w'.
Proof.
  intros Hv. destruct c as [todo| |id|todo|id|id].
  - destruct (Hv todo) as [t Hm]; [cbn; set_solver|].
    destruct (step_Create_cases w todo t Hm)
      as [[Hz E] | [[Hnz [Hocc E]] | [Hnz [Hfree E]]]]; rewrite E; by do 2 eexists.
  - rewrite step_GetAll. by do 2 eexists.
  - rewrite step_GetByID. by do 2 eexists.
  - destruct (Hv todo) as [t Hm]; [cbn; set_solver|].
    destruct (step_Update_cases w todo) as [E | [E | (k & Hk & E)]].
    + exfalso. cbn in E. unfold bind, ret in E.
      change (domain.Update todo w) with (Update todo w) in E.
      destruct (todos (repo w) !! ID t) as [q|] eqn:Hk.
      * rewrite (Update_found w todo t) in E; [done..|]. rewrite Hk. by eexists.
      * by rewrite (Update_absent w todo t) in E.
    + rewrite E. by do 2 eexists.
    + rewrite E. by do 2 eexists.
  - destruct (step_Delete_cases w id) as [[Hk E] | [Hk E]]; rewrite E;
      by do 2 eexists.
  - rewrite step_Exists. by do 2 eexists.
Qed.

Lemma run_total cs : ∀ w,
  (∀ c todo, c ∈ cs → todo ∈ call_ptrs c → is_Some (mem w !! todo)) →
  ∃ log w', run cs w = Done log w'.
Proof.
  induction cs as [|c cs IH]; intros w Hv.
  - by exists [], w.
  - destruct (step_total c w) as (e & w1 & Hs).
    { intros todo Hin. apply (Hv c); [set_solver|done]. }
    destruct (IH w1) as (es & w2 & Hr).
    { intros c' todo Hc Hin. apply (step_mem c w e w1 todo Hs).
      apply (Hv c'); [set_solver|done]. }
    exists (e :: es), w2. rewrite run_cons. by rewrite Hs, Hr.
Qed.

(** A history of [Create] calls has no deletion in it. *)
Lemma run_creates_no_Deleted cs : ∀ w log w',
  Forall is_Create cs → run cs w = Done log w' →
  Forall (λ e, ¬ is_Deleted e) log.
Proof.
  induction cs as [|c cs IH]; intros w log w' Hcs Hr.
  - cbn in Hr. unfold ret in Hr. simplify_eq. constructor.
  - rewrite run_cons in Hr.
    destruct (step c w) as [e w1|] eqn:Hs; [|done].
    destruct (run cs w1) as [es w2|] eqn:Hr1; [|done]. simplify_eq.
    apply Forall_cons in Hcs as [Hc Hcs]. constructor; [|by eapply IH].
    destruct c as [todo| |id|todo|id|id]; try done.
    destruct (mem w !! todo) as [t|] eqn:Hm; [|by rewrite step_Create_nil in Hs].
    destruct (step_Create_cases w todo t Hm)
      as [[Hz E] | [[Hnz [Hocc E]] | [Hnz [Hfree E]]]];
      rewrite E in Hs; simplify_eq; cbn; tauto.
Qed.

Lemma live_from_mono S l :
  Forall (λ e, ¬ is_Deleted e) l → S ⊆ live_from S l.
Proof.
  revert S. induction l as [|e l IH]; intros S Hl; cbn; [done|].
  apply Forall_cons in Hl as [He Hl].
  destruct e as [id b|id|]; cbn in He; [|tauto|by apply IH].
  etrans; [|by apply IH]. set_solver.
Qed.

(** Without deletions in between, "never the id of a present record" means
    "never the same id twice". *)
Lemma fresh_ids_NoDup log : ∀ S,
  Forall (λ e, ¬ is_Deleted e) log →
  (∀ l1 id b l2, log = (l1 ++ Created id b :: l2)%list → id ∉ live_from S l1) →
  NoDup (created_ids log).
Proof.
  induction log as [|e log IH]; intros S Hnd Hfresh; cbn; [constructor|].
  apply Forall_cons in Hnd as [He Hnd].
  destruct e as [id b|id|]; cbn in He; [|tauto|].
  - constructor.
    + intros (l1 & b' & l2 & ->)%created_ids_elem.
      apply (Hfresh (Created id b :: l1) id b' l2 eq_refl). cbn.
      apply Forall_app in Hnd as [Hnd _].
      apply (live_from_mono _ l1 Hnd). set_solver.
    + apply (IH (S ∪ {[id]}) Hnd). intros l1 id' b' l2 ->.
      apply (Hfresh (Created id b :: l1) id' b' l2 eq_refl).
  - apply (IH S Hnd). intros l1 id' b' l2 ->.
    apply (Hfresh (Other :: l1) id' b' l2 eq_refl).
Qed.

(** C1, as the code has it.  Take any sequence of storage calls on a store
    that has just been made, given todos that are not nil, during which the id
    counter does not overflow.  Then:
    - a successful [Create] never assigns the id of a record that is present,
      so the ids assigned by a sequence of [Create] calls alone are pairwise
      distinct;
    - the ids the store assigns itself (to todos that come with id 0) are
      positive and strictly increasing in call order;
    - such an id is larger than every id assigned before it, whether that
      record has been deleted or not: the store never reuses an id on its own.
    An id supplied by the caller, on the other hand, is accepted again once its
    record has been deleted. *)
Theorem created_ids_distinct_and_increasing
    (m : gmap ptr Todo) (cs : list call) :
  (∀ c todo, c ∈ cs → todo ∈ call_ptrs c → is_Some (m !! todo)) →
  no_overflows cs (new_world m) →
  ∃ log w',
    run cs (new_world m) = Done log w' ∧
    (Forall is_Create cs → NoDup (created_ids log)) ∧
    (∀ l1 id auto l2, log = (l1 ++ Created id auto :: l2)%list → id ∉ live l1) ∧
    StronglySorted Z.lt (auto_ids log) ∧
    Forall (λ id, 0 < id) (auto_ids log) ∧
    (∀ l1 id l2, log = (l1 ++ Created id true :: l2)%list →
                 ∀ id', id' ∈ created_ids l1 → id' < id).
Proof.
  intros Hv Hno.
  destruct (run_total cs (new_world m) Hv) as (log & w' & Hr).
  exists log, w'. split; [done|].
  destruct (run_facts cs (new_world m) log w' (new_world_ok m) Hno Hr)
    as (A1 & A2 & A2b & A3).
  assert (Hfresh : ∀ l1 id auto l2,
             log = (l1 ++ Created id auto :: l2)%list → id ∉ live l1).
  { intros l1 id auto l2 Heq. specialize (A1 l1 id auto l2 Heq).
    cbn in A1. by rewrite dom_empty_L in A1. }
  split; [|split; [done|split; [done|split; [|done]]]].
  - intros Hcs. apply (fresh_ids_NoDup log ∅); [|done].
    by apply (run_creates_no_Deleted cs (new_world m) log w').
  - eapply Forall_impl; [exact A2b|]. cbn. intros; lia.
Qed.

(** C1, as the claim states it, fails: a store that has accepted the id 5 and
    deleted that record accepts 5 again, so the ids assigned by successful
    creations are not pairwise distinct and an id is reused after deletion
    (no counter overflow is involved). *)
Lemma supplied_id_reused_after_delete :
  no_overflows reuse_calls (new_world reuse_heap) ∧
  value_of (run reuse_calls (new_world reuse_heap)) =
    Some [Created 5 false; Deleted 5; Created 5 false] ∧
  ¬ NoDup (created_ids [Created 5 false; Deleted 5; Created 5 false]).
Proof.
  split; [|split].
  - vm_compute. tauto.
  - vm_compute. reflexivity.
  - cbn. intros H. apply NoDup_cons in H as [H _]. apply H. set_solver.
Qed.

(** The history [sample_calls] meets the hypotheses of the theorem above. *)
Lemma created_ids_distinct_and_increasing_witness :
  ∃ log w',
    run sample_calls (new_world sample_heap) = Done log w' ∧
    (Forall is_Create sample_calls → NoDup (created_ids log)) ∧
    (∀ l1 id auto l2, log = (l1 ++ Created id auto :: l2)%list → id ∉ live l1) ∧
    StronglySorted Z.lt (auto_ids log) ∧
    Forall (λ id, 0 < id) (auto_ids log) ∧
    (∀ l1 id l2, log = (l1 ++ Created id true :: l2)%list →
                 ∀ id', id' ∈ created_ids l1 → id' < id).
Proof.
  apply (created_ids_distinct_and_increasing sample_heap sample_calls).
  - intros c todo Hc Hin. unfold sample_calls in Hc.
    repeat (apply elem_of_cons in Hc as [->|Hc]);
      try (by apply elem_of_nil in Hc); cbn in Hin;
      try (by apply elem_of_nil in Hin);
      apply list_elem_of_singleton in Hin as ->; vm_compute; by eexists.
  - vm_compute. tauto.
Defined.

(** ** Ids that are not in the store *)

Lemma live_from_bound log : ∀ S id,
  id ∈ live_from S log → id ∈ S ∨ id ∈ created_ids log.
Proof.
  induction log as [|e log IH]; intros S id Hin; cbn in *; [by left|].
  destruct e as [id' b|id'|].
  - destruct (IH _ _ Hin) as [H|H]; set_solver.
  - destruct (IH _ _ Hin) as [H|H]; set_solver.
  - by apply IH.
Qed.

Lemma absent_equations (w : World InMemoryTodoRepository) id :
  todos (repo w) !! id = None →
  GetByID id w = Done (Err ErrTodoNotFound) w ∧
  (∀ todo t, mem w !! todo = Some t → ID t = id →
             Update todo w = Done (Some ErrTodoNotFound) w) ∧
  Delete id w = Done (Some ErrTodoNotFound) w.
Proof.
  intros Hk. split; [by apply GetByID_absent|]. split; [|by apply Delete_absent].
  intros todo t Hm <-. by apply (Update_absent w todo t).
Qed.

(** C3 (not found).  After any history of storage calls on a new store, take
    an id that no successful [Create] has assigned, or one whose record was
    deleted and that has not been assigned since.  Then [GetByID], [Update]
    with a todo that carries this id, and [Delete] all fail with
    [ErrTodoNotFound], and leave the state as it is.  In particular, in any
    state, a [Delete] that follows a successful [Delete] of the same id fails
    with [ErrTodoNotFound]. *)
Theorem absent_id_not_found
    (m : gmap ptr Todo) (cs : list call) (log : list event)
    (w : World InMemoryTodoRepository) (id : Z) :
  run cs (new_world m) = Done log w →
  id ∉ created_ids log ∨
    (∃ l1 l2, log = (l1 ++ Deleted id :: l2)%list ∧ id ∉ created_ids l2) →
  GetByID id w = Done (Err ErrTodoNotFound) w ∧
  (∀ todo t, mem w !! todo = Some t → ID t = id →
             Update todo w = Done (Some ErrTodoNotFound) w) ∧
  Delete id w = Done (Some ErrTodoNotFound) w ∧
  (∀ w1 w2 : World InMemoryTodoRepository,
     Delete id w1 = Done None w2 →
     Delete id w2 = Done (Some ErrTodoNotFound) w2).
Proof.
  intros Hr Hid.
  assert (Hk : todos (repo w) !! id = None).
  { apply not_elem_of_dom. rewrite (run_dom cs (new_world m) log w Hr).
    cbn. rewrite dom_empty_L.
    destruct Hid as [Hnever | (l1 & l2 & -> & Hsince)].
    - intros [Hin|Hin]%live_from_bound; [set_solver|done].
    - rewrite live_from_app. cbn.
      intros [Hin|Hin]%live_from_bound; [set_solver|done]. }
  destruct (absent_equations w id Hk) as (Hg & Hu & Hd).
  split; [done|]. split; [done|]. split; [done|].
  intros w1 w2 Hdel. apply Delete_absent.
  destruct (todos (repo w1) !! id) as [q|] eqn:Hk1.
  - rewrite Delete_found in Hdel by (rewrite Hk1; by eexists).
    simplify_eq. cbn. apply lookup_delete_eq.
  - rewrite Delete_absent in Hdel by done. by simplify_eq.
Qed.

(** After [sample_calls] the id 1 has been created and deleted. *)
Lemma absent_id_not_found_witness :
  ∃ w,
    run sample_calls (new_world sample_heap) = Done
      [Created 1 true; Created 7 false; Deleted 1; Created 8 true] w ∧
    GetByID 1 w = Done (Err ErrTodoNotFound) w ∧
    (∀ todo t, mem w !! todo = Some t → ID t = 1 →
               Update todo w = Done (Some ErrTodoNotFound) w) ∧
    Delete 1 w = Done (Some ErrTodoNotFound) w ∧
    (∀ w1 w2 : World InMemoryTodoRepository,
       Delete 1 w1 = Done None w2 →
       Delete 1 w2 = Done (Some ErrTodoNotFound) w2).
Proof.
  destruct (run sample_calls (new_world sample_heap)) as [log w|] eqn:Hr;
    [|by vm_compute in Hr].
  assert (Hlog : log = [Created 1 true; Created 7 false; Deleted 1; Created 8 true]).
  { vm_compute in Hr. by simplify_eq. }
  subst log. exists w. split; [done|].
  apply (absent_id_not_found sample_heap sample_calls _ w 1 Hr).
  right. exists [Created 1 true; Created 7 false], [Created 8 true].
  split; [done|]. cbn. set_solver.
Defined.

(** ** The id counter *)

(** Where the counter cannot wrap, [Create] with an id of the caller's choice
    leaves it at the larger of its old value and the id plus one. *)
Lemma Create_supplied_counter (w w' : World InMemoryTodoRepository) todo t :
  mem w !! todo = Some t → ID t ≠ 0 → is_int (ID t) → ID t < MaxInt →
  Create todo w = Done None w' →
  todos (repo w') = <[ID t := todo]> (todos (repo w)) ∧
  nextID (repo w') = Z.max (nextID (repo w)) (ID t + 1).
Proof.
  intros Hm Hnz Hint Hlt Hc.
  destruct (Create_cases w todo t Hm) as [[Hz E] | [[_ [_ E]] | [_ [Hfree E]]]];
    rewrite E in Hc; simplify_eq. cbn. split; [done|].
  case_bool_decide.
  - rewrite wrap_id; [lia|]. unfold is_int, MinInt, MaxInt in *. lia.
  - lia.
Qed.

(** C5 at the largest [int].  A todo that asks for the id [MaxInt] is
    accepted, and the counter, which should become the larger of its old value
    and [MaxInt + 1], wraps around to [MinInt].  The next todo without id is
    then given [MinInt]: the id of a record the caller has put there, which it
    replaces.  And once a todo that asks for -1 has moved the wrapped counter
    to 0, the next todo without id is stored with the id 0. *)
Theorem counter_wraps_at_MaxInt :
  (∃ w', Create 2%positive (new_world overflow_heap) = Done None w' ∧
         nextID (repo w') = MinInt ∧
         nextID (repo w') ≠ Z.max (nextID (repo (new_world overflow_heap))) (MaxInt + 1)) ∧
  (∃ w', run overflow_calls (new_world overflow_heap) =
           Done [Created MinInt false; Created MaxInt false; Created MinInt true] w' ∧
         todos (repo w') !! MinInt = Some 3%positive) ∧
  (∃ w', run zero_calls (new_world zero_heap) =
           Done [Created MaxInt false; Created (-1) false; Created 0 true] w' ∧
         stored w' 0 (mkTodo 0 "next" "" false)).
Proof.
  split; [|split].
  - eexists. split; [|split].
    + apply (Create_supplied _ 2%positive (mkTodo MaxInt "highest" "" false));
        vm_compute; congruence.
    + reflexivity.
    + vm_compute. congruence.
  - destruct (run overflow_calls (new_world overflow_heap)) as [log w|] eqn:Hr;
      [|by vm_compute in Hr].
    exists w. vm_compute in Hr. simplify_eq. split; [done|]. reflexivity.
  - destruct (run zero_calls (new_world zero_heap)) as [log w|] eqn:Hr;
      [|by vm_compute in Hr].
    exists w. vm_compute in Hr. simplify_eq. split; [done|].
    exists 3%positive. split; reflexivity.
Qed.

(** ** The ids of the stored records *)

(** C6, as the code has it.  Every storage method keeps the invariant
    [store_ok], as long as [Create] does not make the id counter overflow; and
    under that invariant every record of the store carries the key it is
    stored under as its id, so ids are unique within the store; the id is not
    the sentinel 0 and lies below the counter.  (It need not be positive: the
    store takes a negative id from the caller as it comes.) *)
Theorem store_invariant_preserved
    (c : call) (w w' : World InMemoryTodoRepository) (rep : reply) :
  store_ok w →
  no_overflow c w →
  perform c w = Done rep w' →
  store_ok w' ∧ ids_nonzero w' ∧ ids_unique w' ∧
  (∀ k t, stored w' k t → ID t = k ∧ ID t < nextID (repo w')).
Proof.
  intros Hok Hno Hp.
  assert (Hok' : store_ok w') by by apply (perform_preserves_ok c w rep).
  split; [done|]. split; [by apply store_ok_nonzero|].
  split; [by apply store_ok_unique|].
  intros k t Hst. pose proof (store_ok_key w' k t Hok' Hst) as Hkey.
  split; [done|]. rewrite Hkey. destruct Hst as (p & Hk & _).
  apply (ok_below w' Hok'). by eexists.
Qed.

(** The invariant after creating the todo of [negative_heap] on a new store. *)
Lemma store_invariant_preserved_witness :
  ∃ w', perform (CallCreate 1%positive) (new_world negative_heap) =
          Done (RError None) w' ∧
        store_ok w' ∧ ids_nonzero w' ∧ ids_unique w' ∧
        (∀ k t, stored w' k t → ID t = k ∧ ID t < nextID (repo w')).
Proof.
  destruct (perform (CallCreate 1%positive) (new_world negative_heap))
    as [rep w'|] eqn:Hp; [|by vm_compute in Hp].
  assert (Hrep : rep = RError None) by (vm_compute in Hp; by simplify_eq).
  subst rep. exists w'. split; [done|].
  apply (store_invariant_preserved (CallCreate 1%positive)
           (new_world negative_heap) w' (RError None)).
  - apply new_world_ok.
  - vm_compute. reflexivity.
  - exact Hp.
Defined.

(** C6, as the claim states it, fails: the new store satisfies what the claim
    asks for, and after a successful [Create] of a todo that asks for the id
    -1 it holds a record whose id is not positive. *)
Lemma negative_id_is_stored :
  ids_positive (new_world negative_heap) ∧
  ids_nonzero (new_world negative_heap) ∧
  ids_unique (new_world negative_heap) ∧
  no_overflow (CallCreate 1%positive) (new_world negative_heap) ∧
  ∃ w', Create 1%positive (new_world negative_heap) = Done None w' ∧
        stored w' (-1) (mkTodo (-1) "below zero" "" false) ∧
        ¬ ids_positive w'.
Proof.
  assert (Hnone : ∀ k t, ¬ stored (new_world negative_heap) k t).
  { intros k t (p & Hk & _). cbn in Hk. by rewrite lookup_empty in Hk. }
  split; [intros k t H; by destruct (Hnone k t)|].
  split; [intros k t H; by destruct (Hnone k t)|].
  split; [intros k1 k2 t1 t2 H; by destruct (Hnone k1 t1)|].
  split; [vm_compute; reflexivity|].
  eexists. split.
  - apply (Create_supplied _ 1%positive (mkTodo (-1) "below zero" "" false));
      vm_compute; congruence.
  - assert (Hst : stored
        {| mem := mem (new_world negative_heap);
           repo := {| todos := <[-1 := 1%positive]> (todos (repo (new_world negative_heap)));
                      nextID := if bool_decide (-1 >= nextID (repo (new_world negative_heap)))
                                then wrap (-1 + 1)
                                else nextID (repo (new_world negative_heap)) |} |}
        (-1) (mkTodo (-1) "below zero" "" false)).
    { exists 1%positive. split; cbn; [by rewrite lookup_insert_eq|].
      unfold negative_heap. by rewrite lookup_singleton_eq. }
    split; [exact Hst|]. intros Hpos. specialize (Hpos _ _ Hst). cbn in Hpos. lia.
Qed.

(** ** The use cases *)

(** A todo without title stops both use cases at the validation, in any
    state and for any repository. *)
Lemma untitled_stops_use_cases
    {R : Type} `{!TodoRepository R} (w : World R) (todo : ptr) (t : Todo) (id : Z) :
  mem w !! todo = Some t →
  Title t = "" →
  usecase.CreateTodo todo w = Done (Err (errors_New "title cannot be empty")) w ∧
  usecase.UpdateTodo id todo w = Done (Err (errors_New "title cannot be empty")) w.
Proof.
  intros Hm Ht.
  unfold usecase.CreateTodo, usecase.UpdateTodo, bind, load, ret.
  rewrite Hm. unfold Validate. rewrite Ht. by cbn.
Qed.

(** C4 (validation comes first).  For a todo whose title is empty, [CreateTodo] and
    [UpdateTodo] fail with the validation error, whatever the repository
    behind the interface; run on a recording repository they leave the whole
    state as it is: the heap, the store, and the list of calls made to the
    store, to which nothing is added. *)
Theorem empty_title_never_reaches_storage
    {R : Type} `{!TodoRepository R}
    (w : World (spy.Recorded R)) (todo : ptr) (t : Todo) (id : Z) :
  mem w !! todo = Some t →
  Title t = "" →
  usecase.CreateTodo todo w = Done (Err (errors_New "title cannot be empty")) w ∧
  usecase.UpdateTodo id todo w = Done (Err (errors_New "title cannot be empty")) w.
Proof.
  intros Hm Ht. split.
  - unfold usecase.CreateTodo, bind, load, ret. rewrite Hm.
    unfold Validate. by rewrite Ht.
  - unfold usecase.UpdateTodo, bind, load, ret. rewrite Hm.
    unfold Validate. by rewrite Ht.
Qed.

(** The todo without title of [untitled_world]. *)
Lemma empty_title_never_reaches_storage_witness :
  usecase.CreateTodo 2%positive untitled_world =
    Done (Err (errors_New "title cannot be empty")) untitled_world ∧
  usecase.UpdateTodo 1 2%positive untitled_world =
    Done (Err (errors_New "title cannot be empty")) untitled_world.
Proof.
  apply (empty_title_never_reaches_storage untitled_world 2%positive
           (mkTodo 0 "" "no title" true) 1).
  - vm_compute. reflexivity.
  - reflexivity.
Defined.

Lemma Validate_titled t : Title t ≠ "" → Validate t = None.
Proof.
  intros Ht. unfold Validate.
  destruct (String.eqb_spec (Title t) ""); [done|reflexivity].
Qed.

(** With a title, [UpdateTodo] in front of a recording store first asks the
    store whether the id exists. *)
Lemma UpdateTodo_recorded_calls
    (w : World (spy.Recorded InMemoryTodoRepository))
    (id : Z) (todo : ptr) (t : Todo) :
  mem w !! todo = Some t → Title t ≠ "" →
  ∃ res w' more,
    usecase.UpdateTodo id todo w = Done res w' ∧
    spy.calls (repo w') = (spy.calls (repo w) ++ CallExists id :: more)%list.
Proof.
  intros Hm Ht.
  destruct (todos (spy.inner (repo w)) !! id) as [q|] eqn:Hk; do 3 eexists;
    unfold usecase.UpdateTodo, bind, load, store, ret; rewrite Hm;
    rewrite (Validate_titled t Ht); cbn;
    unfold bind, spy.record, spy.lift, spy.under; cbn.
  - rewrite bool_decide_eq_true_2 by (rewrite Hk; by eexists). cbn.
    rewrite Hm. cbn. rewrite Hm. cbn.
    rewrite (Update_found _ todo (set_ID id t));
      [|cbn; by rewrite lookup_insert_eq|cbn; rewrite Hk; by eexists].
    cbn. split; [reflexivity|]. cbn. by rewrite <- app_assoc.
  - rewrite bool_decide_eq_false_2 by (rewrite Hk; by intros [? ?]). cbn.
    split; reflexivity.
Qed.

(** C8.  [UpdateTodo id todo] validates the todo first: with an empty title it
    fails before any call to the store.  Then it asks the store [Exists id],
    and fails with [ErrTodoNotFound] if the id is absent, leaving store and
    todo as they are.  Otherwise it writes [id] over the id of the todo and
    calls [Update], which stores the todo under [id] whatever id it came with;
    the stored record carries the id of the path. *)
Theorem update_todo_uses_path_id
    (w : World (spy.Recorded InMemoryTodoRepository))
    (id : Z) (todo : ptr) (t : Todo) :
  mem w !! todo = Some t →
  (Title t = "" →
   usecase.UpdateTodo id todo w =
     Done (Err (errors_New "title cannot be empty")) w) ∧
  (Title t ≠ "" → todos (spy.inner (repo w)) !! id = None →
   usecase.UpdateTodo id todo w =
     Done (Err ErrTodoNotFound)
       (mkWorld (mem w)
          (spy.mkRecorded (spy.inner (repo w))
             (spy.calls (repo w) ++ [CallExists id])))) ∧
  (Title t ≠ "" → is_Some (todos (spy.inner (repo w)) !! id) →
   ∃ w',
     usecase.UpdateTodo id todo w = Done (Ok todo) w' ∧
     spy.calls (repo w') = (spy.calls (repo w) ++ [CallExists id; CallUpdate todo])%list ∧
     mem w' = <[todo := set_ID id t]> (mem w) ∧
     todos (spy.inner (repo w')) = <[id := todo]> (todos (spy.inner (repo w))) ∧
     nextID (spy.inner (repo w')) = nextID (spy.inner (repo w)) ∧
     stored (spy.under w') id (set_ID id t) ∧
     ID (set_ID id t) = id).
Proof.
  intros Hm. split; [|split].
  - intros Ht.
    by destruct (untitled_stops_use_cases w todo t id Hm Ht) as [_ ?].
  - intros Ht Hk.
    unfold usecase.UpdateTodo, bind, load, ret. rewrite Hm.
    rewrite (Validate_titled t Ht). cbn.
    unfold bind, spy.record, spy.lift, spy.under. cbn.
    rewrite Hk. rewrite bool_decide_eq_false_2 by (by intros [? ?]). by cbn.
  - intros Ht Hk.
    unfold usecase.UpdateTodo, bind, load, store, ret. rewrite Hm.
    rewrite (Validate_titled t Ht). cbn.
    unfold bind, spy.record, spy.lift, spy.under. cbn.
    rewrite bool_decide_eq_true_2 by done. cbn. rewrite Hm. cbn. rewrite Hm. cbn.
    rewrite (Update_found _ todo (set_ID id t));
      [|cbn; by rewrite lookup_insert_eq|done].
    cbn. eexists. split; [reflexivity|]. cbn.
    rewrite <- app_assoc. cbn. split; [done|]. split; [done|].
    split; [done|]. split; [done|]. split; [|done].
    exists todo. cbn. by rewrite !lookup_insert_eq.
Qed.

(** The todo of [titled_world] comes with id 9 and is stored under the id 1 of
    the path. *)
Lemma update_todo_uses_path_id_witness :
  ∃ w',
    usecase.UpdateTodo 1 2%positive titled_world = Done (Ok 2%positive) w' ∧
    spy.calls (repo w') = [CallExists 1; CallUpdate 2%positive] ∧
    stored (spy.under w') 1 (mkTodo 1 "new title" "" true).
Proof.
  destruct (update_todo_uses_path_id titled_world 1 2%positive
              (mkTodo 9 "new title" "" true)) as (_ & _ & H).
  { vm_compute. reflexivity. }
  destruct H as (w' & Hu & Hc & _ & _ & _ & Hst & _).
  { discriminate. }
  { vm_compute. by eexists. }
  exists w'. split; [exact Hu|]. split; [exact Hc|exact Hst].
Defined.

(** ** The handlers *)

Section handler_equations.
Context {R : Type} `{!TodoRepository R}.
Implicit Types (w : World R) (r : Request).

Lemma decoded_lookup w t : mem (decoded_world w t) !! decoded_ptr w = Some t.
Proof. cbn. apply lookup_insert_eq. Qed.

(** A body that does not decode ends both writing handlers at once. *)
Lemma CreateTodo_malformed r w :
  Body r = None →
  handler.CreateTodo r w =
    handler.respondWithError StatusBadRequest "Invalid request body"
      (mkWorld (<[decoded_ptr w := handler.zero_Todo]> (mem w)) (repo w)).
Proof.
  intros Hb. unfold handler.CreateTodo, bind, alloc. by rewrite Hb.
Qed.

Lemma UpdateTodo_malformed r id w :
  Body r = None →
  handler.UpdateTodo r id w =
    handler.respondWithError StatusBadRequest "Invalid request body"
      (mkWorld (<[decoded_ptr w := handler.zero_Todo]> (mem w)) (repo w)).
Proof.
  intros Hb. unfold handler.UpdateTodo, bind, alloc. by rewrite Hb.
Qed.

Lemma CreateTodo_decoded r w t :
  Body r = Some t →
  handler.CreateTodo r w =
    match usecase.CreateTodo (decoded_ptr w) (decoded_world w t) with
    | Done (Err err) w' =>
        (if errors_Is err ErrTodoAlreadyExists
         then handler.respondWithError StatusConflict (Error err)
         else handler.respondWithError StatusBadRequest (Error err)) w'
    | Done (Ok createdTodo) w' =>
        handler.respondWithJSON StatusCreated (handler.PTodo createdTodo) w'
    | Panic => Panic
    end.
Proof.
  intros Hb. unfold handler.CreateTodo, bind, alloc, store. rewrite Hb. cbn.
  rewrite lookup_insert_eq.
  change (mkWorld _ _) with (decoded_world w t).
  change (fresh (dom (mem w))) with (decoded_ptr w).
  destruct (usecase.CreateTodo (decoded_ptr w) (decoded_world w t))
    as [[?|?] ?|]; reflexivity.
Qed.

Lemma UpdateTodo_decoded r id w t :
  Body r = Some t →
  handler.UpdateTodo r id w =
    match usecase.UpdateTodo id (decoded_ptr w) (decoded_world w t) with
    | Done (Err err) w' =>
        (if errors_Is err ErrTodoNotFound
         then handler.respondWithError StatusNotFound "Todo not found"
         else handler.respondWithError StatusBadRequest (Error err)) w'
    | Done (Ok updatedTodo) w' =>
        handler.respondWithJSON StatusOK (handler.PTodo updatedTodo) w'
    | Panic => Panic
    end.
Proof.
  intros Hb. unfold handler.UpdateTodo, bind, alloc, store. rewrite Hb. cbn.
  rewrite lookup_insert_eq.
  change (mkWorld _ _) with (decoded_world w t).
  change (fresh (dom (mem w))) with (decoded_ptr w).
  destruct (usecase.UpdateTodo id (decoded_ptr w) (decoded_world w t))
    as [[?|?] ?|]; reflexivity.
Qed.

(** The item route, once the id of the path has been read. *)
Lemma HandleTodoByID_dispatch r w id :
  handler.extractIDFromPath (URL_Path r) = Ok id →
  handler.HandleTodoByID r w =
    (if String.eqb (Method r) MethodGet then handler.GetTodoByID r id
     else if String.eqb (Method r) MethodPut then handler.UpdateTodo r id
     else if String.eqb (Method r) MethodDelete then handler.DeleteTodo r id
     else handler.respondWithError StatusMethodNotAllowed "Method not allowed") w.
Proof. intros Hid. unfold handler.HandleTodoByID. by rewrite Hid. Qed.

Lemma HandleTodoByID_bad_id r w e :
  handler.extractIDFromPath (URL_Path r) = Err e →
  handler.HandleTodoByID r w =
    handler.respondWithError StatusBadRequest "Invalid todo ID" w.
Proof. intros Hid. unfold handler.HandleTodoByID. by rewrite Hid. Qed.
End handler_equations.

Section handlers_on_the_store.
Implicit Types (w : World InMemoryTodoRepository) (r : Request).

Lemma CreateTodo_titled w todo t :
  mem w !! todo = Some t → Title t ≠ "" →
  usecase.CreateTodo todo w =
    match Create todo w with
    | Done (Some err) w' => Done (Err err) w'
    | Done None w' => Done (Ok todo) w'
    | Panic => Panic
    end.
Proof.
  intros Hm Ht. unfold usecase.CreateTodo, bind, load, ret. rewrite Hm.
  rewrite (Validate_titled t Ht).
  change (domain.Create todo w) with (Create todo w).
  by destruct (Create todo w) as [[?|] ?|].
Qed.

Lemma UpdateTodo_titled_absent w id todo t :
  mem w !! todo = Some t → Title t ≠ "" → todos (repo w) !! id = None →
  usecase.UpdateTodo id todo w = Done (Err ErrTodoNotFound) w.
Proof.
  intros Hm Ht Hk. unfold usecase.UpdateTodo, bind, load, ret. rewrite Hm.
  rewrite (Validate_titled t Ht).
  change (domain.Exists id w) with (Exists id w). rewrite Exists_eq.
  rewrite bool_decide_eq_false_2; [done|]. rewrite Hk. by intros [? ?].
Qed.

Lemma UpdateTodo_titled_present w id todo t :
  mem w !! todo = Some t → Title t ≠ "" → is_Some (todos (repo w) !! id) →
  usecase.UpdateTodo id todo w =
    Done (Ok todo)
      (mkWorld (<[todo := set_ID id t]> (mem w))
         {| todos := <[id := todo]> (todos (repo w));
            nextID := nextID (repo w) |}).
Proof.
  intros Hm Ht Hk. unfold usecase.UpdateTodo, bind, load, store, ret.
  rewrite Hm. rewrite (Validate_titled t Ht).
  change (domain.Exists id w) with (Exists id w). rewrite Exists_eq.
  rewrite bool_decide_eq_true_2 by done. cbn. rewrite !Hm. cbn.
  rewrite (Update_found _ todo (set_ID id t));
    [done|cbn; by rewrite lookup_insert_eq|done].
Qed.

Lemma present_true w id : present w id = true ↔ is_Some (todos (repo w) !! id).
Proof. unfold present. apply bool_decide_eq_true. Qed.

Lemma present_false w id : present w id = false ↔ todos (repo w) !! id = None.
Proof.
  unfold present. rewrite bool_decide_eq_false. split.
  - intros H. destruct (todos (repo w) !! id) eqn:E; [|done].
    destruct H. by eexists.
  - intros ->. by intros [? ?].
Qed.



Lemma GetTodoByID_answer r w id :
  ∃ resp,
    handler.GetTodoByID r id w = Done resp w ∧
    Code resp = if present w id then StatusOK else StatusNotFound.
Proof.
  unfold handler.GetTodoByID, usecase.GetTodoByID, bind.
  change (domain.GetByID id w) with (GetByID id w).
  destruct (todos (repo w) !! id) as [q|] eqn:Hk.
  - rewrite (GetByID_found w id q Hk). cbn. eexists. split; [reflexivity|]. cbn.
    replace (present w id) with true; [done|].
    symmetry. apply present_true. rewrite Hk. by eexists.
  - rewrite (GetByID_absent w id Hk). cbn. eexists. split; [reflexivity|]. cbn.
    replace (present w id) with false; [done|]. symmetry. by apply present_false.
Qed.


Lemma GetAllTodos_answer r w :
  handler.GetAllTodos r w =
    Done (mkResponse (Some "application/json") StatusOK
            (Some (JArray (json.encode_ptr (mem w) <$>
                             (snd <$> map_to_list (todos (repo w))))))) w.
Proof. reflexivity. Qed.

End handlers_on_the_store.

Lemma eqb_of_eq (a b : string) : a = b → String.eqb a b = true.
Proof. intros ->. apply String.eqb_refl. Qed.


(** C9.  On a store without records, [GetAll] returns a slice that is empty
    and not nil, and GET /todos answers 200 with the JSON array [[]], which is
    not [null]. *)
Theorem empty_store_lists_empty_array
    (r : Request) (w : World InMemoryTodoRepository) :
  todos (repo w) = ∅ →
  Method r = MethodGet →
  GetAll w = Done (Ok (make_slice [])) w ∧
  make_slice [] ≠ @nil_slice ptr ∧
  handler.HandleTodos r w =
    Done (mkResponse (Some "application/json") StatusOK (Some (JArray []))) w ∧
  JArray [] ≠ JNull.
Proof.
  intros Hempty Hget. split; [|split; [done|split; [|done]]].
  - rewrite GetAll_eq, Hempty. by rewrite map_to_list_empty.
  - unfold handler.HandleTodos. rewrite Hget.
    change (String.eqb MethodGet MethodPost) with false.
    change (String.eqb MethodGet MethodGet) with true. cbv iota.
    rewrite GetAllTodos_answer, Hempty. by rewrite map_to_list_empty.
Qed.

(** GET /todos on a new store. *)
Lemma empty_store_lists_empty_array_witness :
  GetAll (new_world ∅) = Done (Ok (make_slice [])) (new_world ∅) ∧
  make_slice [] ≠ @nil_slice ptr ∧
  handler.HandleTodos (mkRequest "GET" "/todos" None) (new_world ∅) =
    Done (mkResponse (Some "application/json") StatusOK (Some (JArray [])))
      (new_world ∅) ∧
  JArray [] ≠ JNull.
Proof.
  apply (empty_store_lists_empty_array (mkRequest "GET" "/todos" None) (new_world ∅));
    reflexivity.
Defined.

(** ** The id in the path *)

Section path_lemmas.
Implicit Types (s x y p : string) (c sep : ascii).

Lemma append_cons c s y : String c s ++ y = String c (s ++ y).
Proof. reflexivity. Qed.

Lemma append_nil y : "" ++ y = y.
Proof. reflexivity. Qed.

Lemma append_empty s : s ++ "" = s.
Proof. induction s as [|c s IH]; [done|]. by rewrite append_cons, IH. Qed.

(** Nothing is trimmed off in front of a kept byte. *)
Lemma TrimRight_cons c s cutset :
  strings.TrimRight s cutset ≠ "" →
  strings.TrimRight (String c s) cutset = String c (strings.TrimRight s cutset).
Proof.
  intros H. cbn [strings.TrimRight]. by destruct (strings.TrimRight s cutset).
Qed.

Lemma TrimRight_prefix p s cutset :
  strings.TrimRight s cutset ≠ "" →
  strings.TrimRight (p ++ s) cutset = p ++ strings.TrimRight s cutset.
Proof.
  intros H. induction p as [|c p IH]; [done|].
  rewrite !append_cons. rewrite TrimRight_cons; [by rewrite IH|].
  rewrite IH. by destruct p.
Qed.

(** A piece without slash in front of [y] is kept whole. *)
Lemma TrimRight_kept x y :
  x ≠ "" → strings.in_cutset "/" x = false →
  strings.TrimRight (x ++ y) "/" = x ++ strings.TrimRight y "/".
Proof.
  intros Hne Hx. induction x as [|c x IH]; [done|].
  cbn [strings.in_cutset] in Hx. apply orb_false_iff in Hx as [Hc Hx].
  rewrite !append_cons. destruct x as [|c' x'].
  - rewrite !append_nil. cbn [strings.TrimRight strings.in_cutset].
    rewrite Ascii.eqb_sym, Hc. cbn [orb].
    by destruct (strings.TrimRight y "/").
  - rewrite TrimRight_cons; [by rewrite IH|]. by rewrite IH.
Qed.

Lemma Split_no_sep x sep :
  strings.in_cutset sep x = false → strings.Split x sep = [x].
Proof.
  induction x as [|c x IH]; [done|].
  cbn [strings.in_cutset strings.Split]. intros [Hc Hx]%orb_false_iff.
  rewrite Ascii.eqb_sym, Hc. by rewrite IH.
Qed.

Lemma Split_at_sep x y sep :
  strings.in_cutset sep x = false →
  strings.Split (x ++ String sep y) sep = x :: strings.Split y sep.
Proof.
  induction x as [|c x IH].
  - intros _. rewrite append_nil. cbn [strings.Split]. by rewrite Ascii.eqb_refl.
  - cbn [strings.in_cutset]. intros [Hc Hx]%orb_false_iff.
    rewrite append_cons. cbn [strings.Split].
    rewrite Ascii.eqb_sym, Hc. by rewrite IH.
Qed.

Lemma digit_not_slash c d : strconv.digit c = Some d → Ascii.eqb "/" c = false.
Proof.
  intros H. destruct (Ascii.eqb_spec "/" c) as [<-|]; [|done].
  by vm_compute in H.
Qed.

Lemma digits_no_slash s : ∀ acc n,
  strconv.digits s acc = Some n → strings.in_cutset "/" s = false.
Proof.
  induction s as [|c s IH]; intros acc n H; [done|].
  cbn [strconv.digits] in H. cbn [strings.in_cutset].
  destruct (strconv.digit c) as [d|] eqn:Hd; [|done].
  rewrite (digit_not_slash c d Hd). cbn [orb]. by eapply IH.
Qed.

(** What [Atoi] accepts is not empty and has no slash in it. *)
Lemma Atoi_shape s n :
  strconv.Atoi s = Ok n → s ≠ "" ∧ strings.in_cutset "/" s = false.
Proof.
  destruct s as [|c s]; [done|]. intros H. split; [done|].
  unfold strconv.Atoi in H.
  destruct (Ascii.eqb c "-" || Ascii.eqb c "+") eqn:Hsign.
  - destruct s as [|c' s']; [done|].
    destruct (strconv.digits (String c' s') 0) as [v|] eqn:Hd; [|done].
    change (strings.in_cutset "/" (String c (String c' s')))
      with (Ascii.eqb "/" c || strings.in_cutset "/" (String c' s')).
    rewrite (digits_no_slash _ _ _ Hd). rewrite orb_false_r.
    destruct (Ascii.eqb_spec "/" c) as [<-|]; [|done]. by vm_compute in Hsign.
  - destruct (strconv.digits (String c s) 0) as [v|] eqn:Hd; [|done].
    by apply (digits_no_slash _ _ _ Hd).
Qed.

Lemma Atoi_is_int s n : strconv.Atoi s = Ok n → is_int n.
Proof.
  destruct s as [|c s]; [done|]. unfold strconv.Atoi.
  destruct (if Ascii.eqb c "-" || Ascii.eqb c "+" then s else String c s); [done|].
  destruct (strconv.digits _ 0) as [v|]; [|done].
  destruct (_ && _) eqn:Hr; [|done]. intros [= <-].
  apply andb_true_iff in Hr as [H1 H2]. unfold is_int. lia.
Qed.

(** The id of the item route is the second piece of the path. *)
Lemma second_piece seg tail :
  seg ≠ "" → strings.in_cutset "/" seg = false →
  tail = "" ∨ (∃ k, tail = String "/" k) →
  handler.extractIDFromPath ("/todos/" ++ seg ++ tail) = strconv.Atoi seg.
Proof.
  intros Hne Hseg Htail. unfold handler.extractIDFromPath, strings.Trim.
  rewrite append_cons. cbn [strings.TrimLeft strings.in_cutset].
  change (Ascii.eqb "/" "/") with true. cbn [orb].
  change ("todos/" ++ seg ++ tail) with (String "t" ("odos/" ++ seg ++ tail)).
  cbn [strings.TrimLeft strings.in_cutset].
  change (Ascii.eqb "t" "/") with false. cbn [orb].
  change (String "t" ("odos/" ++ seg ++ tail)) with ("todos/" ++ (seg ++ tail)).
  assert (Hkept : strings.TrimRight (seg ++ tail) "/" =
                  seg ++ strings.TrimRight tail "/") by by apply TrimRight_kept.
  rewrite TrimRight_prefix; rewrite Hkept; [|by destruct seg].
  assert (Hsplit : ∃ more,
            strings.Split (seg ++ strings.TrimRight tail "/") "/" = seg :: more).
  { destruct Htail as [->|[k ->]].
    - exists []. cbn [strings.TrimRight]. rewrite append_empty.
      by apply Split_no_sep.
    - cbn [strings.TrimRight strings.in_cutset].
      change (Ascii.eqb "/" "/") with true. cbn [orb].
      destruct (strings.TrimRight k "/") as [|c k'].
      + exists []. rewrite append_empty. by apply Split_no_sep.
      + eexists. by apply Split_at_sep. }
  destruct Hsplit as [more Hsplit].
  change ("todos/" ++ seg ++ strings.TrimRight tail "/")
    with ("todos" ++ String "/" (seg ++ strings.TrimRight tail "/")).
  rewrite Split_at_sep by reflexivity. rewrite Hsplit.
  by cbn.
Qed.
End path_lemmas.







(** Decimal forms are read back by [Atoi]. *)
Lemma digits_of_uint_acc d : ∀ p,
  strconv.digits (NilEmpty.string_of_uint d) (Z.pos p) =
    Some (Z.pos (Pos.of_uint_acc d p)).
Proof.
  induction d; intros p; [done|..];
    cbn [NilEmpty.string_of_uint strconv.digits Pos.of_uint_acc];
    match goal with
    | |- context [strconv.digit ?c] =>
        let v := eval vm_compute in (strconv.digit c) in
        change (strconv.digit c) with v
    end; cbv iota; rewrite <- IHd; f_equal; lia.
Qed.

Lemma digits_of_uint d :
  strconv.digits (NilEmpty.string_of_uint d) 0 = Some (Z.of_N (Pos.of_uint d)).
Proof.
  induction d; [done|..];
    cbn [NilEmpty.string_of_uint strconv.digits Pos.of_uint];
    match goal with
    | |- context [strconv.digit ?c] =>
        let v := eval vm_compute in (strconv.digit c) in
        change (strconv.digit c) with v
    end; cbv iota; [exact IHd|..]; apply digits_of_uint_acc.
Qed.

Lemma string_of_uint_head d :
  d ≠ Nil →
  ∃ c rest, NilEmpty.string_of_uint d = String c rest ∧
            Ascii.eqb c "-" || Ascii.eqb c "+" = false.
Proof. destruct d; [done|..]; intros _; by do 2 eexists. Qed.

Lemma string_of_uint_nonnil d :
  d ≠ Nil → NilZero.string_of_uint d = NilEmpty.string_of_uint d.
Proof. by destruct d. Qed.

Lemma Atoi_Itoa n : is_int n → strconv.Atoi (strconv.Itoa n) = Ok n.
Proof.
  intros [Hlo Hhi]. destruct n as [|p|p].
  - reflexivity.
  - unfold strconv.Itoa. cbn [Z.to_int NilZero.string_of_int NilZero.string_of_uint].
    pose proof (Unsigned.to_uint_nonnil p) as Hnn.
    destruct (string_of_uint_head _ Hnn) as (c & rest & Hs & Hsign).
    pose proof (digits_of_uint (Pos.to_uint p)) as Hd.
    rewrite Unsigned.of_to in Hd.
    apply orb_false_iff in Hsign as [Hminus Hplus].
    rewrite (string_of_uint_nonnil _ Hnn).
    rewrite Hs in *. unfold strconv.Atoi. cbv zeta.
    rewrite Hminus, Hplus. cbn [orb]. rewrite Hd. cbn [Z.of_N].
    rewrite (proj2 (andb_true_iff _ _)); [done|]. split; by apply Z.leb_le.
  - unfold strconv.Itoa. cbn [Z.to_int NilZero.string_of_int NilZero.string_of_uint].
    pose proof (Unsigned.to_uint_nonnil p) as Hnn.
    destruct (string_of_uint_head _ Hnn) as (c & rest & Hs & Hsign).
    pose proof (digits_of_uint (Pos.to_uint p)) as Hd.
    rewrite Unsigned.of_to in Hd.
    rewrite (string_of_uint_nonnil _ Hnn).
    rewrite Hs in *. unfold strconv.Atoi. cbv zeta.
    change (Ascii.eqb "-" "-") with true. cbn [orb].
    rewrite Hd. cbn [Z.of_N]. change (- Z.pos p) with (Z.neg p).
    rewrite (proj2 (andb_true_iff _ _)); [done|]. split; by apply Z.leb_le.
Qed.

Section item_route.
Implicit Types (w : World (spy.Recorded InMemoryTodoRepository)) (r : Request).

Lemma recorded_GetTodoByID r w id :
  ∃ resp,
    handler.GetTodoByID r id w =
      Done resp (mkWorld (mem w)
                   (spy.mkRecorded (spy.inner (repo w))
                      (spy.calls (repo w) ++ [CallGetByID id]))) ∧
    (todos (spy.inner (repo w)) !! id = None → Code resp = StatusNotFound).
Proof.
  unfold handler.GetTodoByID, usecase.GetTodoByID, bind. cbn.
  unfold bind, spy.record, spy.lift, spy.under, GetByID, bind, get_repo, ret. cbn.
  destruct (todos (spy.inner (repo w)) !! id); cbn; eexists; by split.
Qed.

Lemma recorded_DeleteTodo r w id :
  ∃ resp w',
    handler.DeleteTodo r id w = Done resp w' ∧
    spy.calls (repo w') = (spy.calls (repo w) ++ [CallDelete id])%list.
Proof.
  unfold handler.DeleteTodo, usecase.DeleteTodo, bind. cbn.
  unfold bind, spy.record, spy.lift, spy.under, Delete, bind, get_repo, put_repo, ret.
  cbn. case_bool_decide; cbn; do 2 eexists; by split.
Qed.

Lemma recorded_UpdateTodo r w id t :
  Body r = Some t → Title t ≠ "" →
  ∃ resp w' more,
    handler.UpdateTodo r id w = Done resp w' ∧
    spy.calls (repo w') = (spy.calls (repo w) ++ CallExists id :: more)%list.
Proof.
  intros Hb Ht. rewrite (UpdateTodo_decoded r id w t Hb).
  pose proof (decoded_lookup w t) as Hm.
  destruct (UpdateTodo_recorded_calls (decoded_world w t) id (decoded_ptr w) t Hm Ht)
    as (res & w' & more & -> & Hcalls).
  destruct res as [updated|err]; [|destruct (errors_Is err ErrTodoNotFound)];
    cbn; do 3 eexists; (split; [reflexivity|exact Hcalls]).
Qed.
End item_route.

(** C10.  The item route reads the id from the second piece of the path and
    from nothing else.  For every piece [seg] that [Atoi] reads as the integer
    [n] (with a sign or not, zero, negative), a request for /todos/seg, or for
    /todos/seg/ followed by anything, gets past the check of the id and is
    handled as a request for the id [n]: GET asks the store for [n], DELETE
    asks it to delete [n], PUT with a valid body asks it whether [n] exists;
    where the store has no record under [n], GET answers 404, not 400.  Every
    [int] has such a piece: its decimal form. *)
Theorem item_route_reads_second_piece
    (seg rest : string) (n : Z) (r : Request)
    (w : World (spy.Recorded InMemoryTodoRepository)) :
  strconv.Atoi seg = Ok n →
  URL_Path r = "/todos/" ++ seg ∨ URL_Path r = "/todos/" ++ seg ++ "/" ++ rest →
  handler.extractIDFromPath (URL_Path r) = Ok n ∧
  handler.HandleTodoByID r w =
    (if String.eqb (Method r) MethodGet then handler.GetTodoByID r n
     else if String.eqb (Method r) MethodPut then handler.UpdateTodo r n
     else if String.eqb (Method r) MethodDelete then handler.DeleteTodo r n
     else handler.respondWithError StatusMethodNotAllowed "Method not allowed") w ∧
  (Method r = MethodGet →
   spy.calls <$> (repo <$> state_of (handler.HandleTodoByID r w)) =
     Some (spy.calls (repo w) ++ [CallGetByID n])%list) ∧
  (Method r = MethodDelete →
   spy.calls <$> (repo <$> state_of (handler.HandleTodoByID r w)) =
     Some (spy.calls (repo w) ++ [CallDelete n])%list) ∧
  (Method r = MethodPut → ∀ t, Body r = Some t → Title t ≠ "" →
   ∃ more,
     spy.calls <$> (repo <$> state_of (handler.HandleTodoByID r w)) =
       Some (spy.calls (repo w) ++ CallExists n :: more)%list) ∧
  (Method r = MethodGet → todos (spy.inner (repo w)) !! n = None →
   code_of (handler.HandleTodoByID r w) = Some StatusNotFound) ∧
  (∀ k, is_int k → strconv.Atoi (strconv.Itoa k) = Ok k).
Proof.
  intros Hatoi Hpath.
  destruct (Atoi_shape seg n Hatoi) as [Hne Hseg].
  assert (Hid : handler.extractIDFromPath (URL_Path r) = Ok n).
  { rewrite <- Hatoi. destruct Hpath as [-> | ->].
    - rewrite <- (append_empty seg) at 1. apply second_piece; auto.
    - apply second_piece; [done..|]. right. by eexists. }
  pose proof (HandleTodoByID_dispatch r w n Hid) as Hd.
  split; [done|]. split; [done|]. rewrite Hd.
  split; [|split; [|split; [|split]]].
  - intros ->. cbn [String.eqb].
    change (String.eqb MethodGet MethodGet) with true. cbv iota.
    destruct (recorded_GetTodoByID r w n) as (resp & -> & _). done.
  - intros ->.
    change (String.eqb MethodDelete MethodGet) with false.
    change (String.eqb MethodDelete MethodPut) with false.
    change (String.eqb MethodDelete MethodDelete) with true. cbv iota.
    destruct (recorded_DeleteTodo r w n) as (resp & w' & -> & Hc). cbn.
    by rewrite Hc.
  - intros -> t Hb Ht.
    change (String.eqb MethodPut MethodGet) with false.
    change (String.eqb MethodPut MethodPut) with true. cbv iota.
    destruct (recorded_UpdateTodo r w n t Hb Ht) as (resp & w' & more & -> & Hc).
    exists more. cbn. by rewrite Hc.
  - intros -> Hk.
    change (String.eqb MethodGet MethodGet) with true. cbv iota.
    destruct (recorded_GetTodoByID r w n) as (resp & -> & Hcode). cbn.
    by rewrite Hcode.
  - apply Atoi_Itoa.
Qed.

(** GET /todos/-7/extra/pieces on a new store asks the store for -7 and
    answers 404. *)
Lemma item_route_reads_second_piece_witness :
  handler.extractIDFromPath (URL_Path get_minus_seven) = Ok (-7) ∧
  spy.calls <$> (repo <$> state_of
    (handler.HandleTodoByID get_minus_seven recording_new_world)) =
    Some [CallGetByID (-7)] ∧
  code_of (handler.HandleTodoByID get_minus_seven recording_new_world) =
    Some StatusNotFound.
Proof.
  destruct (item_route_reads_second_piece "-7" "extra/pieces" (-7)
              get_minus_seven recording_new_world)
    as (Hid & _ & Hget & _ & _ & Hcode & _).
  - reflexivity.
  - right. reflexivity.
  - split; [exact Hid|]. split.
    + exact (Hget eq_refl).
    + apply Hcode; reflexivity.
Defined.

(** * Further properties

    What the code shows beyond the statements above: the storage engine, the
    use cases and the handlers, each on its own and one after the other. *)

(** ** What [GetAll] returns *)

Lemma stored_ptr_inj w k1 k2 p :
  store_ok w →
  todos (repo w) !! k1 = Some p → todos (repo w) !! k2 = Some p → k1 = k2.
Proof.
  intros Hok H1 H2.
  destruct (ok_id w Hok k1 p H1) as (t1 & Hm1 & <-).
  destruct (ok_id w Hok k2 p H2) as (t2 & Hm2 & <-). by simplify_eq.
Qed.

Lemma values_of_store (m : gmap Z ptr) :
  length (snd <$> map_to_list m) = size m ∧
  (∀ p, p ∈ snd <$> map_to_list m ↔ ∃ k, m !! k = Some p).
Proof.
  split.
  - by rewrite length_fmap, length_map_to_list.
  - intros p. rewrite list_elem_of_fmap. split.
    + intros ([k q] & -> & Hin). exists k. by apply elem_of_map_to_list.
    + intros [k Hk]. exists (k, p). split; [done|]. by apply elem_of_map_to_list.
Qed.

Lemma values_of_store_NoDup w :
  store_ok w → NoDup (snd <$> map_to_list (todos (repo w))).
Proof.
  intros Hok. apply NoDup_fmap_2_strong; [|apply NoDup_map_to_list].
  intros [k1 p1] [k2 p2] H1%elem_of_map_to_list H2%elem_of_map_to_list Heq.
  cbn in Heq. subst p2. f_equal. by eapply stored_ptr_inj.
Qed.

(** X1.  [GetAll] is a snapshot that changes nothing: it returns a slice that
    is not nil, with one entry for each key of the store, and a todo is in
    it exactly when the store holds it under some key.  Where the invariant of
    the store holds, no todo is listed twice. *)
Theorem GetAll_lists_every_record_once (w : World InMemoryTodoRepository) :
  ∃ l,
    GetAll w = Done (Ok (make_slice l)) w ∧
    length l = size (todos (repo w)) ∧
    (∀ p, p ∈ l ↔ ∃ k, todos (repo w) !! k = Some p) ∧
    (store_ok w → NoDup l).
Proof.
  exists (snd <$> map_to_list (todos (repo w))).
  destruct (values_of_store (todos (repo w))) as [Hlen Hin].
  split; [apply GetAll_eq|]. split; [done|]. split; [done|].
  apply values_of_store_NoDup.
Qed.

(** ** How many records the store holds *)

Lemma Create_free_key w todo t :
  store_ok w → no_overflow (CallCreate todo) w →
  mem w !! todo = Some t → ID t = 0 →
  todos (repo w) !! nextID (repo w) = None.
Proof.
  intros Hok _ _ _. destruct (todos (repo w) !! nextID (repo w)) eqn:Hk; [|done].
  assert (nextID (repo w) < nextID (repo w)); [|lia].
  apply (ok_below w Hok). rewrite Hk. by eexists.
Qed.

(** X2.  Under the invariant of the store, and while the id counter does not
    overflow, a call changes the number of records by what it reports: a
    [Create] that returns nil adds one record (it never lands on a key that is
    taken), a [Delete] that returns nil removes one, and every other call,
    a failed one included, leaves the number as it is. *)
Theorem calls_change_the_count_as_reported
    (c : call) (w w' : World InMemoryTodoRepository) (rep : reply) :
  store_ok w →
  no_overflow c w →
  perform c w = Done rep w' →
  size (todos (repo w')) =
    match c, rep with
    | CallCreate _, RError None => S (size (todos (repo w)))
    | CallDelete _, RError None => pred (size (todos (repo w)))
    | _, _ => size (todos (repo w))
    end.
Proof.
  intros Hok Hno Hp. destruct c as [todo| |id|todo|id|id]; cbn in Hp;
    unfold bind, ret in Hp.
  - destruct (mem w !! todo) as [t|] eqn:Hm; [|by rewrite Create_nil in Hp].
    destruct (Create_cases w todo t Hm) as [[Hz E] | [[Hnz [Hocc E]] | [Hnz [Hfree E]]]];
      rewrite E in Hp; simplify_eq; cbn; [| done |].
    + apply map_size_insert_None. by apply (Create_free_key w todo t).
    + by apply map_size_insert_None.
  - by simplify_eq.
  - destruct (todos (repo w) !! id) as [q|] eqn:Hk.
    + rewrite (GetByID_found w id q) in Hp by done. by simplify_eq.
    + rewrite GetByID_absent in Hp by done. by simplify_eq.
  - destruct (mem w !! todo) as [t|] eqn:Hm; [|by rewrite Update_nil in Hp].
    destruct (todos (repo w) !! ID t) as [q|] eqn:Hk.
    + rewrite (Update_found w todo t) in Hp by (try rewrite Hk; eauto).
      simplify_eq. cbn. apply map_size_insert_Some. rewrite Hk. by eexists.
    + rewrite (Update_absent w todo t) in Hp by done. by simplify_eq.
  - destruct (todos (repo w) !! id) as [q|] eqn:Hk.
    + rewrite Delete_found in Hp by (rewrite Hk; by eexists).
      simplify_eq. cbn. apply map_size_delete_Some. rewrite Hk. by eexists.
    + rewrite Delete_absent in Hp by done. by simplify_eq.
  - by simplify_eq.
Qed.

(** Creating the second todo of [sample_heap], which asks for 7, on a new
    store. *)
Lemma calls_change_the_count_as_reported_witness :
  ∃ w', perform (CallCreate 2%positive) (new_world sample_heap) =
          Done (RError None) w' ∧
        size (todos (repo w')) = 1%nat.
Proof.
  destruct (perform (CallCreate 2%positive) (new_world sample_heap))
    as [rep w'|] eqn:Hp; [|by vm_compute in Hp].
  assert (Hrep : rep = RError None) by (vm_compute in Hp; by simplify_eq).
  subst rep. exists w'. split; [done|].
  rewrite (calls_change_the_count_as_reported (CallCreate 2%positive)
             (new_world sample_heap) w' (RError None)
             (new_world_ok sample_heap)); [done| |done].
  vm_compute. reflexivity.
Defined.

(** ** What [Create] leaves alone *)

(** X3.  Under the invariant of the store, and while the id counter does not
    overflow, a successful [Create] adds one record and touches no other: the
    records of the store afterwards are those it held before, unchanged and
    under the same keys, and the created todo under its id. *)
Theorem Create_keeps_existing_records
    (w w' : World InMemoryTodoRepository) (todo : ptr) (t : Todo) :
  store_ok w →
  no_overflow (CallCreate todo) w →
  mem w !! todo = Some t →
  Create todo w = Done None w' →
  ∀ k t',
    stored w' k t' ↔
    stored w k t' ∨
    (k = (if bool_decide (ID t = 0) then nextID (repo w) else ID t) ∧
     t' = set_ID k t).
Proof.
  intros Hok Hno Hm Hc k t'.
  destruct (Create_cases w todo t Hm) as [[Hz E] | [[Hnz [_ E]] | [Hnz [Hfree E]]]];
    rewrite E in Hc; simplify_eq.
  - rewrite bool_decide_eq_true_2 by done.
    pose proof (Create_free_key w todo t Hok Hno Hm Hz) as Hfree.
    unfold stored; cbn. split.
    + intros (p & Hk & Hp). destruct (decide (k = nextID (repo w))) as [->|Hne].
      * rewrite lookup_insert_eq in Hk. simplify_eq.
        rewrite lookup_insert_eq in Hp. simplify_eq. by right.
      * rewrite lookup_insert_ne in Hk by done. left. exists p. split; [done|].
        destruct (decide (p = todo)) as [->|Hpne]; [|by rewrite lookup_insert_ne in Hp].
        destruct (ok_id w Hok k todo Hk) as (t0 & Hm0 & Hid0). simplify_eq.
        rewrite Hz in Hk. by rewrite (ok_zero w Hok) in Hk.
    + intros [(p & Hk & Hp) | [-> ->]].
      * exists p. assert (k ≠ nextID (repo w)) by (intros ->; by rewrite Hfree in Hk).
        rewrite lookup_insert_ne by done. split; [done|].
        destruct (decide (p = todo)) as [->|Hpne]; [|by rewrite lookup_insert_ne].
        destruct (ok_id w Hok k todo Hk) as (t0 & Hm0 & Hid0). simplify_eq.
        rewrite Hz in Hk. by rewrite (ok_zero w Hok) in Hk.
      * exists todo. by rewrite !lookup_insert_eq.
  - rewrite (bool_decide_eq_false_2 (ID t = 0)) by done.
    unfold stored; cbn. split.
    + intros (p & Hk & Hp). destruct (decide (k = ID t)) as [->|Hne].
      * rewrite lookup_insert_eq in Hk. simplify_eq. right.
        split; [done|]. by rewrite set_ID_same.
      * rewrite lookup_insert_ne in Hk by done. left. by exists p.
    + intros [(p & Hk & Hp) | [-> ->]].
      * exists p. assert (k ≠ ID t) by (intros ->; by rewrite Hfree in Hk).
        by rewrite lookup_insert_ne.
      * exists todo. rewrite lookup_insert_eq. by rewrite set_ID_same.
Qed.

(** Creating the first todo of [sample_heap] on a new store. *)
Lemma Create_keeps_existing_records_witness :
  ∃ w',
    Create 1%positive (new_world sample_heap) = Done None w' ∧
    ∀ k t',
      stored w' k t' ↔
      stored (new_world sample_heap) k t' ∨
      (k = 1 ∧ t' = set_ID k (mkTodo 0 "a" "" false)).
Proof.
  destruct (Create 1%positive (new_world sample_heap)) as [e w'|] eqn:Hc;
    [|by vm_compute in Hc].
  assert (He : e = None) by (vm_compute in Hc; by simplify_eq).
  subst e. exists w'. split; [done|].
  apply (Create_keeps_existing_records (new_world sample_heap) w' 1%positive
           (mkTodo 0 "a" "" false) (new_world_ok sample_heap)).
  - vm_compute. reflexivity.
  - vm_compute. reflexivity.
  - exact Hc.
Defined.

(** ** The ids a new store hands out *)

Lemma run_fresh_creates (ps : list ptr) : ∀ (w : World InMemoryTodoRepository),
  NoDup ps →
  (∀ p, p ∈ ps → ∃ t, mem w !! p = Some t ∧ ID t = 0) →
  0 ≤ nextID (repo w) →
  nextID (repo w) + Z.of_nat (length ps) ≤ MaxInt →
  value_of (run (CallCreate <$> ps) w) =
    Some (count_from (nextID (repo w)) (length ps)).
Proof.
  induction ps as [|p ps IH]; intros w Hnd Hcells Hlo Hhi; [done|].
  apply NoDup_cons in Hnd as [Hp Hnd].
  destruct (Hcells p) as (t & Hm & Hz); [set_solver|].
  cbn [fmap list_fmap length count_from]. rewrite run_cons.
  destruct (step_Create_cases w p t Hm) as [[_ E] | [[Hnz _] | [Hnz _]]];
    [|done..].
  rewrite E. cbn [length] in Hhi. rewrite wrap_succ by lia.
  match goal with |- context [run _ ?w1] => specialize (IH w1 Hnd) end.
  cbn [mem repo nextID] in IH.
  assert (IH' := IH). clear IH. 
  match type of IH' with ?A → _ → _ → _ => assert (Hc : A) end.
  { intros q Hq. destruct (Hcells q) as (tq & Hmq & Hzq); [set_solver|].
    exists tq. split; [|done]. rewrite lookup_insert_ne; [done|].
    by intros ->. }
  specialize (IH' Hc ltac:(lia) ltac:(lia)).
  destruct (run (CallCreate <$> ps) _) as [es w2|]; cbn in IH' |- *; by simplify_eq.
Qed.

(** X4.  A new store numbers the todos that come without id 1, 2, 3, ... in
    the order of the calls: creating [n] distinct todos whose id is 0 succeeds
    each time and assigns 1 to the first, up to [n] to the last. *)
Theorem new_store_counts_from_one (m : gmap ptr Todo) (ps : list ptr) :
  NoDup ps →
  (∀ p, p ∈ ps → ∃ t, m !! p = Some t ∧ ID t = 0) →
  Z.of_nat (length ps) < MaxInt →
  value_of (run (CallCreate <$> ps) (new_world m)) =
    Some (count_from 1 (length ps)).
Proof.
  intros Hnd Hcells Hlen.
  apply (run_fresh_creates ps (new_world m)); [done|done|cbn; lia|cbn; lia].
Qed.

(** The three todos of [three_untitled_ids] get 1, 2 and 3. *)
Lemma new_store_counts_from_one_witness :
  value_of (run (CallCreate <$> [1%positive; 2%positive; 3%positive])
              (new_world three_untitled_ids)) =
    Some [Created 1 true; Created 2 true; Created 3 true].
Proof.
  apply (new_store_counts_from_one three_untitled_ids
           [1%positive; 2%positive; 3%positive]).
  - repeat constructor; set_solver.
  - intros p Hp. repeat (apply elem_of_cons in Hp as [->|Hp]);
      [..|by apply elem_of_nil in Hp]; eexists; (split; [by vm_compute|done]).
  - by vm_compute.
Defined.

(** ** Todos are shared, not copied *)

(** X5.  [GetByID] hands out the very cell the store holds: what the caller
    writes through the returned pointer is what the store holds from then on
    and what the next [GetByID] leads to, with no call to [Update] in between
    and no change to the map or the counter. *)
Theorem returned_todo_is_shared
    (w : World InMemoryTodoRepository) (id : Z) (t t' : Todo) :
  stored w id t →
  ∃ p w1,
    GetByID id w = Done (Ok p) w ∧
    store p t' w = Done tt w1 ∧
    repo w1 = repo w ∧
    GetByID id w1 = Done (Ok p) w1 ∧
    stored w1 id t'.
Proof.
  intros (p & Hk & Hm).
  exists p, (mkWorld (<[p := t']> (mem w)) (repo w)).
  split; [by apply GetByID_found|].
  split; [unfold store; by rewrite Hm|]. split; [done|].
  split; [by apply GetByID_found|].
  exists p. split; [done|]. cbn. apply lookup_insert_eq.
Qed.

(** The record of [one_record_world]. *)
Lemma returned_todo_is_shared_witness :
  ∃ p w1,
    GetByID 1 one_record_world = Done (Ok p) one_record_world ∧
    store p (mkTodo 0 "" "" false) one_record_world = Done tt w1 ∧
    repo w1 = repo one_record_world ∧
    GetByID 1 w1 = Done (Ok p) w1 ∧
    stored w1 1 (mkTodo 0 "" "" false).
Proof.
  apply (returned_todo_is_shared one_record_world 1 (mkTodo 1 "kept" "" false)).
  exists 1%positive. split; by vm_compute.
Defined.

(** ** The use cases on the in-memory store *)

(** X6.  [CreateTodo] on the in-memory store has three outcomes and no other.
    Without title it fails with the validation error; with a title and an id
    that is taken it fails with [ErrTodoAlreadyExists]; in both cases nothing
    has changed.  Otherwise it returns the very todo it was given, which now
    carries its id and is the record the store holds under that id. *)
Theorem CreateTodo_outcomes
    (w : World InMemoryTodoRepository) (todo : ptr) (t : Todo) :
  mem w !! todo = Some t →
  (Title t = "" →
   usecase.CreateTodo todo w = Done (Err (errors_New "title cannot be empty")) w) ∧
  (Title t ≠ "" → ID t ≠ 0 → is_Some (todos (repo w) !! ID t) →
   usecase.CreateTodo todo w = Done (Err ErrTodoAlreadyExists) w) ∧
  (Title t ≠ "" → ID t = 0 ∨ todos (repo w) !! ID t = None →
   ∃ w' id,
     usecase.CreateTodo todo w = Done (Ok todo) w' ∧
     id = (if bool_decide (ID t = 0) then nextID (repo w) else ID t) ∧
     stored w' id (set_ID id t) ∧
     mem w' !! todo = Some (set_ID id t)).
Proof.
  intros Hm. split; [|split].
  - intros Ht. by destruct (untitled_stops_use_cases w todo t 0 Hm Ht) as [? _].
  - intros Ht Hnz Hocc. rewrite (CreateTodo_titled w todo t Hm Ht).
    by rewrite (Create_occupied w todo t).
  - intros Ht Hfree. rewrite (CreateTodo_titled w todo t Hm Ht).
    destruct (Create_cases w todo t Hm) as [[Hz E] | [[Hnz [Hocc E]] | [Hnz [Hk E]]]];
      rewrite E.
    + do 2 eexists. split; [reflexivity|].
      rewrite bool_decide_eq_true_2 by done. split; [reflexivity|].
      split; [exists todo|]; cbn; by rewrite !lookup_insert_eq.
    + destruct Hfree as [?|Hk]; [done|]. rewrite Hk in Hocc. by destruct Hocc.
    + do 2 eexists. split; [reflexivity|].
      rewrite (bool_decide_eq_false_2 (ID t = 0)) by done. split; [reflexivity|].
      rewrite set_ID_same. split; [exists todo|]; cbn; by rewrite ?lookup_insert_eq.
Qed.

(** The todo with title of [two_records_heap] that asks for the id 2, which
    is taken. *)
Lemma CreateTodo_outcomes_witness :
  usecase.CreateTodo 2%positive two_records_world =
    Done (Err ErrTodoAlreadyExists) two_records_world.
Proof.
  destruct (CreateTodo_outcomes two_records_world 2%positive
              (mkTodo 2 "second" "" true)) as (_ & H & _).
  - by vm_compute.
  - apply H; [discriminate|discriminate|]. vm_compute. by eexists.
Defined.

(** X7.  [UpdateTodo] writes the id of the path through the pointer it is
    given.  Handed a todo that the store already holds under another id (one
    that [GetTodoByID] returned, say), it leaves the store with the same todo
    under both ids, carrying the id of the path: the ids of the stored records
    are no longer unique. *)
Theorem UpdateTodo_of_a_stored_todo_duplicates_it
    (w : World InMemoryTodoRepository) (k id : Z) (p : ptr) (t : Todo) :
  todos (repo w) !! k = Some p →
  mem w !! p = Some t →
  Title t ≠ "" →
  is_Some (todos (repo w) !! id) →
  k ≠ id →
  ∃ w',
    usecase.UpdateTodo id p w = Done (Ok p) w' ∧
    stored w' k (set_ID id t) ∧
    stored w' id (set_ID id t) ∧
    ¬ ids_unique w'.
Proof.
  intros Hk Hm Ht Hid Hne.
  rewrite (UpdateTodo_titled_present w id p t Hm Ht Hid).
  eexists. split; [reflexivity|].
  assert (H1 : stored
    {| mem := <[p:=set_ID id t]> (mem w);
       repo := {| todos := <[id:=p]> (todos (repo w)); nextID := nextID (repo w) |} |}
    k (set_ID id t)).
  { exists p. cbn. rewrite lookup_insert_ne by done. by rewrite lookup_insert_eq. }
  assert (H2 : stored
    {| mem := <[p:=set_ID id t]> (mem w);
       repo := {| todos := <[id:=p]> (todos (repo w)); nextID := nextID (repo w) |} |}
    id (set_ID id t)).
  { exists p. cbn. by rewrite !lookup_insert_eq. }
  split; [done|]. split; [done|].
  intros Huniq. by apply Hne, (Huniq k id _ _ H1 H2).
Qed.

(** In [two_records_world], the todo stored under 1 is handed to
    [UpdateTodo] for the id 2. *)
Lemma UpdateTodo_of_a_stored_todo_duplicates_it_witness :
  ∃ w',
    usecase.UpdateTodo 2 1%positive two_records_world = Done (Ok 1%positive) w' ∧
    stored w' 1 (mkTodo 2 "first" "" false) ∧
    stored w' 2 (mkTodo 2 "first" "" false) ∧
    ¬ ids_unique w'.
Proof.
  apply (UpdateTodo_of_a_stored_todo_duplicates_it two_records_world 1 2
           1%positive (mkTodo 1 "first" "" false)).
  - by vm_compute.
  - by vm_compute.
  - discriminate.
  - vm_compute. by eexists.
  - discriminate.
Defined.

(** ** The handlers, response by response *)

Section http_on_the_store.
Implicit Types (w : World InMemoryTodoRepository) (r : Request).

Lemma decoded_ptr_fresh {R} (w : World R) : mem w !! decoded_ptr w = None.
Proof. apply not_elem_of_dom, is_fresh. Qed.

Lemma decoded_other {R} (w : World R) t q :
  q ≠ decoded_ptr w → mem (decoded_world w t) !! q = mem w !! q.
Proof. intros Hq. cbn. by rewrite !lookup_insert_ne. Qed.

Lemma HandleTodos_post r w :
  Method r = MethodPost → handler.HandleTodos r w = handler.CreateTodo r w.
Proof. intros Hm. unfold handler.HandleTodos. by rewrite (eqb_of_eq _ _ Hm). Qed.

Lemma HandleTodos_get r w :
  Method r = MethodGet → handler.HandleTodos r w = handler.GetAllTodos r w.
Proof. intros Hm. unfold handler.HandleTodos. by rewrite Hm. Qed.

Lemma item_path_id id : is_int id → handler.extractIDFromPath (item_path id) = Ok id.
Proof.
  intros Hint. pose proof (Atoi_Itoa id Hint) as Ha.
  destruct (Atoi_shape _ _ Ha) as [Hne Hns].
  unfold item_path. rewrite <- Ha.
  replace ("/todos/" ++ strconv.Itoa id)
    with ("/todos/" ++ strconv.Itoa id ++ "") by by rewrite append_empty.
  apply second_piece; auto.
Qed.

Lemma item_get r w id :
  Method r = MethodGet → URL_Path r = item_path id → is_int id →
  handler.HandleTodoByID r w = handler.GetTodoByID r id w.
Proof.
  intros Hm Hp Hint.
  rewrite (HandleTodoByID_dispatch r w id) by (rewrite Hp; by apply item_path_id).
  by rewrite Hm.
Qed.

Lemma item_put r w id :
  Method r = MethodPut → URL_Path r = item_path id → is_int id →
  handler.HandleTodoByID r w = handler.UpdateTodo r id w.
Proof.
  intros Hm Hp Hint.
  rewrite (HandleTodoByID_dispatch r w id) by (rewrite Hp; by apply item_path_id).
  by rewrite Hm.
Qed.

Lemma item_delete r w id :
  Method r = MethodDelete → URL_Path r = item_path id → is_int id →
  handler.HandleTodoByID r w = handler.DeleteTodo r id w.
Proof.
  intros Hm Hp Hint.
  rewrite (HandleTodoByID_dispatch r w id) by (rewrite Hp; by apply item_path_id).
  by rewrite Hm.
Qed.

Lemma GetTodoByID_found r w id p t :
  todos (repo w) !! id = Some p → mem w !! p = Some t →
  handler.GetTodoByID r id w = Done (json_response StatusOK (json.encode_Todo t)) w.
Proof.
  intros Hk Hm. unfold handler.GetTodoByID, usecase.GetTodoByID, bind.
  change (domain.GetByID id w) with (GetByID id w).
  rewrite (GetByID_found w id p Hk). cbn.
  unfold handler.respondWithJSON, json_response, json.encode_ptr. by rewrite Hm.
Qed.

Lemma GetTodoByID_missing r w id :
  todos (repo w) !! id = None →
  handler.GetTodoByID r id w = Done (error_response StatusNotFound "Todo not found") w.
Proof.
  intros Hk. unfold handler.GetTodoByID, usecase.GetTodoByID, bind.
  change (domain.GetByID id w) with (GetByID id w).
  by rewrite (GetByID_absent w id Hk).
Qed.

Lemma DeleteTodo_found r w id :
  is_Some (todos (repo w) !! id) →
  handler.DeleteTodo r id w =
    Done (mkResponse None StatusNoContent None)
      (mkWorld (mem w) {| todos := delete id (todos (repo w));
                          nextID := nextID (repo w) |}).
Proof.
  intros Hk. unfold handler.DeleteTodo, usecase.DeleteTodo, bind.
  change (domain.Delete id w) with (Delete id w).
  by rewrite Delete_found.
Qed.

Lemma DeleteTodo_missing r w id :
  todos (repo w) !! id = None →
  handler.DeleteTodo r id w = Done (error_response StatusNotFound "Todo not found") w.
Proof.
  intros Hk. unfold handler.DeleteTodo, usecase.DeleteTodo, bind.
  change (domain.Delete id w) with (Delete id w).
  by rewrite (Delete_absent w id Hk).
Qed.

Lemma writers_untitled r w id t :
  Body r = Some t → Title t = "" →
  handler.CreateTodo r w =
    Done (error_response StatusBadRequest "title cannot be empty") (decoded_world w t) ∧
  handler.UpdateTodo r id w =
    Done (error_response StatusBadRequest "title cannot be empty") (decoded_world w t).
Proof.
  intros Hb Ht.
  rewrite (CreateTodo_decoded r w t Hb), (UpdateTodo_decoded r id w t Hb).
  destruct (untitled_stops_use_cases (decoded_world w t) (decoded_ptr w) t id
              (decoded_lookup w t) Ht) as [-> ->]. done.
Qed.

Lemma CreateTodo_taken r w t :
  Body r = Some t → Title t ≠ "" → ID t ≠ 0 → is_Some (todos (repo w) !! ID t) →
  handler.CreateTodo r w =
    Done (error_response StatusConflict "todo with this ID already exists")
      (decoded_world w t).
Proof.
  intros Hb Ht Hnz Hk. rewrite (CreateTodo_decoded r w t Hb).
  rewrite (CreateTodo_titled _ _ t (decoded_lookup w t) Ht).
  by rewrite (Create_occupied (decoded_world w t) (decoded_ptr w) t
                (decoded_lookup w t) Hnz Hk).
Qed.

Lemma CreateTodo_created r w t :
  Body r = Some t → Title t ≠ "" → ID t = 0 ∨ todos (repo w) !! ID t = None →
  ∃ w1,
    handler.CreateTodo r w =
      Done (json_response StatusCreated (json.encode_Todo (set_ID (assigned_id w t) t))) w1 ∧
    mem w1 !! decoded_ptr w = Some (set_ID (assigned_id w t) t) ∧
    (∀ q, q ≠ decoded_ptr w → mem w1 !! q = mem w !! q) ∧
    todos (repo w1) = <[assigned_id w t := decoded_ptr w]> (todos (repo w)) ∧
    nextID (repo w1) =
      (if bool_decide (assigned_id w t >= nextID (repo w))
       then wrap (assigned_id w t + 1) else nextID (repo w)).
Proof.
  intros Hb Ht Hfree. rewrite (CreateTodo_decoded r w t Hb).
  pose proof (decoded_lookup w t) as Hm.
  rewrite (CreateTodo_titled _ _ t Hm Ht). unfold assigned_id.
  destruct (Create_cases (decoded_world w t) (decoded_ptr w) t Hm)
    as [[Hz E] | [[Hnz [Hocc E]] | [Hnz [Hk E]]]]; rewrite E.
  - rewrite (bool_decide_eq_true_2 (ID t = 0)) by done.
    rewrite (bool_decide_eq_true_2 (_ >= _)) by lia.
    eexists. split.
    { unfold handler.respondWithJSON, json_response, json.encode_ptr. cbn.
      by rewrite lookup_insert_eq. }
    cbn. split; [by rewrite lookup_insert_eq|].
    split; [|done]. intros q Hq. by rewrite !lookup_insert_ne.
  - destruct Hfree as [?|Hk]; [done|]. cbn in Hocc. rewrite Hk in Hocc.
    by destruct Hocc.
  - rewrite (bool_decide_eq_false_2 (ID t = 0)) by done. rewrite set_ID_same.
    eexists. split.
    { unfold handler.respondWithJSON, json_response, json.encode_ptr. cbn.
      by rewrite lookup_insert_eq. }
    cbn. split; [by rewrite lookup_insert_eq|].
    split; [|done]. intros q Hq. by rewrite !lookup_insert_ne.
Qed.

Lemma UpdateTodo_missing r w id t :
  Body r = Some t → Title t ≠ "" → todos (repo w) !! id = None →
  handler.UpdateTodo r id w =
    Done (error_response StatusNotFound "Todo not found") (decoded_world w t).
Proof.
  intros Hb Ht Hk. rewrite (UpdateTodo_decoded r id w t Hb).
  by rewrite (UpdateTodo_titled_absent _ id _ t (decoded_lookup w t) Ht).
Qed.

Lemma UpdateTodo_replaced r w id t :
  Body r = Some t → Title t ≠ "" → is_Some (todos (repo w) !! id) →
  handler.UpdateTodo r id w =
    Done (json_response StatusOK (json.encode_Todo (set_ID id t)))
      (mkWorld (<[decoded_ptr w := set_ID id t]> (mem (decoded_world w t)))
         {| todos := <[id := decoded_ptr w]> (todos (repo w));
            nextID := nextID (repo w) |}).
Proof.
  intros Hb Ht Hk. rewrite (UpdateTodo_decoded r id w t Hb).
  rewrite (UpdateTodo_titled_present _ id _ t (decoded_lookup w t) Ht) by done.
  unfold handler.respondWithJSON, json_response, json.encode_ptr.
  cbn [mem]. by rewrite lookup_insert_eq.
Qed.

(** A cell that is added to the heap, or overwritten where the store does not
    point, leaves the invariant as it is. *)
Lemma store_ok_heap w m' :
  store_ok w →
  (∀ k p, todos (repo w) !! k = Some p → m' !! p = mem w !! p) →
  store_ok (mkWorld m' (repo w)).
Proof.
  intros Hok Hsame. split; cbn.
  - apply (ok_next w Hok).
  - apply (ok_below w Hok).
  - apply (ok_zero w Hok).
  - intros k p Hp. rewrite (Hsame k p Hp). by apply (ok_id w Hok).
Qed.

Lemma stored_ptr_allocated w k p :
  store_ok w → todos (repo w) !! k = Some p → p ≠ decoded_ptr w.
Proof.
  intros Hok Hk ->. destruct (ok_id w Hok k _ Hk) as (t & Hm & _).
  by rewrite decoded_ptr_fresh in Hm.
Qed.

Lemma decoded_world_ok w t : store_ok w → store_ok (decoded_world w t).
Proof.
  intros Hok. apply (store_ok_heap w); [done|].
  intros k p Hk. apply decoded_other. by eapply stored_ptr_allocated.
Qed.

Lemma malformed_world_ok w :
  store_ok w →
  store_ok (mkWorld (<[decoded_ptr w := handler.zero_Todo]> (mem w)) (repo w)).
Proof.
  intros Hok. apply (store_ok_heap w); [done|].
  intros k p Hk. rewrite lookup_insert_ne; [done|].
  intros Heq. by eapply stored_ptr_allocated.
Qed.
End http_on_the_store.

Section answers.
Implicit Types (w : World InMemoryTodoRepository) (r : Request).

(** The cell a handler decodes the body into is a new one: the todos that
    were in memory are as before. *)
Lemma kept_decoded w t0 p t :
  mem w !! p = Some t → mem (decoded_world w t0) !! p = Some t.
Proof.
  intros Hm. rewrite decoded_other; [done|].
  intros ->. by rewrite decoded_ptr_fresh in Hm.
Qed.

Lemma kept_malformed w p t :
  mem w !! p = Some t →
  mem (mkWorld (<[decoded_ptr w := handler.zero_Todo]> (mem w)) (repo w)) !! p =
    Some t.
Proof.
  intros Hm. cbn. rewrite lookup_insert_ne; [done|].
  intros <-. by rewrite decoded_ptr_fresh in Hm.
Qed.

(** The last steps of every branch that refuses the request. *)
Ltac refused :=
  do 2 eexists; split; [done|]; right; do 2 eexists;
  split; [done|]; split; [set_solver|]; split; [done|];
  first [done | apply kept_decoded | apply kept_malformed].

(** Every answer of the collection route is a success, or an error response
    that comes with the store as it was. *)
Lemma HandleTodos_shape r w :
  ∃ resp w',
    handler.HandleTodos r w = Done resp w' ∧
    (Code resp ∈ [StatusOK; StatusCreated] ∨
     ∃ code msg,
       resp = error_response code msg ∧
       code ∈ [StatusBadRequest; StatusMethodNotAllowed; StatusConflict] ∧
       repo w' = repo w ∧
       (∀ p t, mem w !! p = Some t → mem w' !! p = Some t)).
Proof.
  unfold handler.HandleTodos.
  destruct (String.eqb (Method r) MethodPost).
  - destruct (Body r) as [t|] eqn:Hb.
    + destruct (decide (Title t = "")) as [Ht|Ht].
      * destruct (writers_untitled r w 0 t Hb Ht) as [-> _].
        refused.
      * destruct (decide (ID t = 0)) as [Hz|Hnz].
        { destruct (CreateTodo_created r w t Hb Ht) as (w1 & -> & _); [by left|].
          do 2 eexists. split; [done|]. left. cbn. set_solver. }
        destruct (todos (repo w) !! ID t) as [q|] eqn:Hk.
        { rewrite (CreateTodo_taken r w t Hb Ht Hnz) by (rewrite Hk; by eexists).
          refused. }
        destruct (CreateTodo_created r w t Hb Ht) as (w1 & -> & _); [by right|].
        do 2 eexists. split; [done|]. left. cbn. set_solver.
    + rewrite (CreateTodo_malformed r w Hb).
      refused.
  - destruct (String.eqb (Method r) MethodGet).
    + rewrite GetAllTodos_answer. do 2 eexists. split; [done|]. left. cbn. set_solver.
    + refused.
Qed.

(** The same for the item route. *)
Lemma HandleTodoByID_shape r w :
  ∃ resp w',
    handler.HandleTodoByID r w = Done resp w' ∧
    (Code resp ∈ [StatusOK; StatusNoContent] ∨
     ∃ code msg,
       resp = error_response code msg ∧
       code ∈ [StatusBadRequest; StatusNotFound; StatusMethodNotAllowed] ∧
       repo w' = repo w ∧
       (∀ p t, mem w !! p = Some t → mem w' !! p = Some t)).
Proof.
  destruct (handler.extractIDFromPath (URL_Path r)) as [id|e] eqn:Hid.
  - rewrite (HandleTodoByID_dispatch r w id Hid).
    destruct (String.eqb (Method r) MethodGet).
    { destruct (todos (repo w) !! id) as [p|] eqn:Hk.
      - unfold handler.GetTodoByID, usecase.GetTodoByID, bind.
        change (domain.GetByID id w) with (GetByID id w).
        rewrite (GetByID_found w id p Hk).
        do 2 eexists. split; [done|]. left. cbn. set_solver.
      - rewrite (GetTodoByID_missing r w id Hk).
        refused. }
    destruct (String.eqb (Method r) MethodPut).
    { destruct (Body r) as [t|] eqn:Hb.
      - destruct (decide (Title t = "")) as [Ht|Ht].
        + destruct (writers_untitled r w id t Hb Ht) as [_ ->].
          refused.
        + destruct (todos (repo w) !! id) as [p|] eqn:Hk.
          * rewrite (UpdateTodo_replaced r w id t Hb Ht) by (rewrite Hk; by eexists).
            do 2 eexists. split; [done|]. left. cbn. set_solver.
          * rewrite (UpdateTodo_missing r w id t Hb Ht Hk).
            refused.
      - rewrite (UpdateTodo_malformed r id w Hb).
        refused. }
    destruct (String.eqb (Method r) MethodDelete).
    { destruct (todos (repo w) !! id) as [p|] eqn:Hk.
      - rewrite (DeleteTodo_found r w id) by (rewrite Hk; by eexists).
        do 2 eexists. split; [done|]. left. cbn. set_solver.
      - rewrite (DeleteTodo_missing r w id Hk).
        refused. }
    refused.
  - rewrite (HandleTodoByID_bad_id r w e Hid).
    refused.
Qed.
End answers.

(** X8.  Whatever the request and whatever the store holds, both routes
    return a response: no handler panics, and none of the branches that answer
    500 is ever taken.  The collection route answers 200, 201, 400, 405 or
    409; the item route answers 200, 204, 400, 404 or 405. *)
Theorem handlers_always_answer (r : Request) (w : World InMemoryTodoRepository) :
  (∃ resp w',
     handler.HandleTodos r w = Done resp w' ∧
     Code resp ∈ [StatusOK; StatusCreated; StatusBadRequest;
                  StatusMethodNotAllowed; StatusConflict]) ∧
  (∃ resp w',
     handler.HandleTodoByID r w = Done resp w' ∧
     Code resp ∈ [StatusOK; StatusNoContent; StatusBadRequest;
                  StatusNotFound; StatusMethodNotAllowed]).
Proof.
  split.
  - destruct (HandleTodos_shape r w)
      as (resp & w' & E & [Hc | (code & msg & -> & Hc & _)]);
      exists resp, w' || (do 2 eexists); (split; [exact E|]); cbn; set_solver.
  - destruct (HandleTodoByID_shape r w)
      as (resp & w' & E & [Hc | (code & msg & -> & Hc & _)]);
      exists resp, w' || (do 2 eexists); (split; [exact E|]); cbn; set_solver.
Qed.

(** X9.  A request that is answered with an error status (400 or above) gets
    a JSON object with the single field "error" as its body, with the content
    type application/json, and changes nothing that was there: the store maps
    the same ids to the same todos and has the same counter, and every todo
    that was in memory has the value it had.  On a store that is in order the
    records are therefore exactly those of before, with the same contents. *)
Theorem refusals_carry_a_message_and_change_nothing
    (r : Request) (w w' : World InMemoryTodoRepository) (resp : Response) :
  handler.HandleTodos r w = Done resp w' ∨
  handler.HandleTodoByID r w = Done resp w' →
  400 ≤ Code resp →
  ContentType resp = Some "application/json" ∧
  (∃ msg, Written resp = Some (JObject [("error", JString msg)])) ∧
  repo w' = repo w ∧
  (∀ p t, mem w !! p = Some t → mem w' !! p = Some t) ∧
  (store_ok w → ∀ k t, stored w' k t ↔ stored w k t).
Proof.
  intros E Hcode.
  assert (H : ∃ code msg, resp = error_response code msg ∧ repo w' = repo w ∧
                ∀ p t, mem w !! p = Some t → mem w' !! p = Some t).
  { destruct E as [E|E].
    - destruct (HandleTodos_shape r w)
        as (resp0 & w0 & E0 & [Hc | (code & msg & Hr & _ & Hrepo & Hmem)]);
        rewrite E in E0; simplify_eq; [|by do 2 eexists].
      exfalso. revert Hcode. set_unfold in Hc.
      unfold StatusOK, StatusCreated in Hc. lia.
    - destruct (HandleTodoByID_shape r w)
        as (resp0 & w0 & E0 & [Hc | (code & msg & Hr & _ & Hrepo & Hmem)]);
        rewrite E in E0; simplify_eq; [|by do 2 eexists].
      exfalso. revert Hcode. set_unfold in Hc.
      unfold StatusOK, StatusNoContent in Hc. lia. }
  destruct H as (code & msg & -> & Hrepo & Hmem).
  split; [done|]. split; [by eexists|]. split; [done|]. split; [done|].
  intros Hok k t. unfold stored. rewrite Hrepo. split.
  - intros (p & Hk & Hp). exists p. split; [done|].
    destruct (ok_id w Hok k p Hk) as (t0 & Hm0 & _).
    rewrite (Hmem p t0 Hm0) in Hp. by simplify_eq.
  - intros (p & Hk & Hp). exists p. split; [done|]. by apply Hmem.
Qed.

Lemma one_record_world_ok : store_ok one_record_world.
Proof.
  split.
  - by vm_compute.
  - intros k [p Hp]. cbn in Hp. apply lookup_singleton_Some in Hp as [<- _].
    by vm_compute.
  - by vm_compute.
  - intros k p Hp. cbn in Hp. apply lookup_singleton_Some in Hp as [<- <-].
    eexists. split; [by vm_compute|done].
Qed.

(** A PUT without title for an id that is not there, on the store with one
    record: the record is as before. *)
Lemma refusals_carry_a_message_and_change_nothing_witness :
  ContentType (error_response StatusBadRequest "title cannot be empty") =
    Some "application/json" ∧
  (∃ msg, Written (error_response StatusBadRequest "title cannot be empty") =
            Some (JObject [("error", JString msg)])) ∧
  repo (decoded_world one_record_world (mkTodo 0 "" "" true)) = repo one_record_world ∧
  (∀ k t, stored (decoded_world one_record_world (mkTodo 0 "" "" true)) k t ↔
          stored one_record_world k t).
Proof.
  destruct (refusals_carry_a_message_and_change_nothing put_untitled_absent
              one_record_world
              (decoded_world one_record_world (mkTodo 0 "" "" true))
              (error_response StatusBadRequest "title cannot be empty"))
    as (H1 & H2 & H3 & _ & H5).
  - right. by vm_compute.
  - by vm_compute.
  - split; [exact H1|]. split; [exact H2|]. split; [exact H3|].
    apply H5, one_record_world_ok.
Defined.

(** X10.  A GET changes nothing at all, on either route and whatever it is
    answered: the store and every todo are as before. *)
Theorem get_requests_change_nothing
    (r : Request) (w : World InMemoryTodoRepository) :
  Method r = MethodGet →
  state_of (handler.HandleTodos r w) = Some w ∧
  state_of (handler.HandleTodoByID r w) = Some w.
Proof.
  intros Hm. split.
  - by rewrite (HandleTodos_get r w Hm), GetAllTodos_answer.
  - destruct (handler.extractIDFromPath (URL_Path r)) as [id|e] eqn:Hid.
    + rewrite (HandleTodoByID_dispatch r w id Hid), Hm.
      change (String.eqb MethodGet MethodGet) with true. cbv iota.
      by destruct (GetTodoByID_answer r w id) as (resp & -> & _).
    + by rewrite (HandleTodoByID_bad_id r w e Hid).
Qed.

Lemma get_requests_change_nothing_witness :
  state_of (handler.HandleTodos (mkRequest "GET" "/todos/1" None) one_record_world) =
    Some one_record_world ∧
  state_of (handler.HandleTodoByID (mkRequest "GET" "/todos/1" None) one_record_world) =
    Some one_record_world.
Proof.
  apply (get_requests_change_nothing (mkRequest "GET" "/todos/1" None)
           one_record_world). reflexivity.
Defined.

(** ** Requests that follow one another *)

(** X11.  What a POST /todos creates, a GET of its id returns.  A POST whose
    body has a title and an id that is free (or no id) is answered 201 with
    the todo, which carries the id it was stored under: the counter where the
    body had none, the id of the body otherwise.  A GET of /todos/<that id>
    that follows is answered 200 with the very same body. *)
Theorem post_then_get_returns_the_record
    (post get : Request) (w : World InMemoryTodoRepository) (t : Todo) :
  Method post = MethodPost →
  Body post = Some t →
  Title t ≠ "" →
  ID t = 0 ∨ todos (repo w) !! ID t = None →
  is_int (assigned_id w t) →
  Method get = MethodGet →
  URL_Path get = item_path (assigned_id w t) →
  ∃ w1,
    handler.HandleTodos post w =
      Done (json_response StatusCreated
              (json.encode_Todo (set_ID (assigned_id w t) t))) w1 ∧
    handler.HandleTodoByID get w1 =
      Done (json_response StatusOK
              (json.encode_Todo (set_ID (assigned_id w t) t))) w1.
Proof.
  intros Hpost Hb Ht Hfree Hint Hget Hpath.
  destruct (CreateTodo_created post w t Hb Ht Hfree)
    as (w1 & E & Hcell & _ & Htodos & _).
  exists w1. split; [by rewrite (HandleTodos_post post w Hpost)|].
  rewrite (item_get get w1 _ Hget Hpath Hint).
  apply (GetTodoByID_found get w1 _ (decoded_ptr w)); [|done].
  rewrite Htodos. apply lookup_insert_eq.
Qed.

(** The first POST of the integration test, and the GET of /todos/1. *)
Lemma post_then_get_returns_the_record_witness :
  ∃ w1,
    handler.HandleTodos
      (mkRequest "POST" "/todos"
         (Some (mkTodo 0 "Integration Test Todo" "Test description" false)))
      (new_world ∅) =
      Done (json_response StatusCreated
              (json.encode_Todo
                 (mkTodo 1 "Integration Test Todo" "Test description" false))) w1 ∧
    handler.HandleTodoByID (mkRequest "GET" "/todos/1" None) w1 =
      Done (json_response StatusOK
              (json.encode_Todo
                 (mkTodo 1 "Integration Test Todo" "Test description" false))) w1.
Proof.
  apply (post_then_get_returns_the_record
           (mkRequest "POST" "/todos"
              (Some (mkTodo 0 "Integration Test Todo" "Test description" false)))
           (mkRequest "GET" "/todos/1" None) (new_world ∅)
           (mkTodo 0 "Integration Test Todo" "Test description" false)).
  - reflexivity.
  - reflexivity.
  - discriminate.
  - by left.
  - by vm_compute.
  - reflexivity.
  - reflexivity.
Defined.

(** X12.  A PUT of /todos/<id> for an id that is there, with a body that has
    a title, replaces the whole record by the body, the id being that of the
    path whatever the body says: it is answered 200 with that todo, a GET of
    the same path then returns the same body, and the records under the other
    ids and the counter are as before. *)
Theorem put_then_get_returns_the_replacement
    (put get : Request) (w : World InMemoryTodoRepository) (id : Z) (t : Todo) :
  store_ok w →
  is_Some (todos (repo w) !! id) →
  is_int id →
  Method put = MethodPut →
  URL_Path put = item_path id →
  Body put = Some t →
  Title t ≠ "" →
  Method get = MethodGet →
  URL_Path get = item_path id →
  ∃ w1,
    handler.HandleTodoByID put w =
      Done (json_response StatusOK (json.encode_Todo (set_ID id t))) w1 ∧
    handler.HandleTodoByID get w1 =
      Done (json_response StatusOK (json.encode_Todo (set_ID id t))) w1 ∧
    (∀ k t', k ≠ id → stored w1 k t' ↔ stored w k t') ∧
    nextID (repo w1) = nextID (repo w).
Proof.
  intros Hok Hk Hint Hput Hpath Hb Ht Hget Hpath'.
  eexists. split.
  { rewrite (item_put put w id Hput Hpath Hint).
    apply (UpdateTodo_replaced put w id t Hb Ht Hk). }
  split.
  { rewrite (item_get get _ id Hget Hpath' Hint).
    apply (GetTodoByID_found get _ id (decoded_ptr w)); cbn; apply lookup_insert_eq. }
  split; [|done].
  intros k t' Hne. unfold stored. cbn [mem repo todos decoded_world].
  split; intros (p & Hp & Hm).
  - rewrite lookup_insert_ne in Hp by done. exists p. split; [done|].
    rewrite !lookup_insert_ne in Hm; [done|..];
      intros Heq; by apply (stored_ptr_allocated w k p Hok Hp).
  - exists p. rewrite lookup_insert_ne by done. split; [done|].
    rewrite !lookup_insert_ne; [done|..];
      intros Heq; by apply (stored_ptr_allocated w k p Hok Hp).
Qed.

(** The PUT of the integration test, on the record of [one_record_world]. *)
Lemma put_then_get_returns_the_replacement_witness :
  ∃ w1,
    handler.HandleTodoByID
      (mkRequest "PUT" "/todos/1"
         (Some (mkTodo 0 "Updated Todo" "Updated description" true)))
      one_record_world =
      Done (json_response StatusOK
              (json.encode_Todo (mkTodo 1 "Updated Todo" "Updated description" true)))
        w1 ∧
    handler.HandleTodoByID (mkRequest "GET" "/todos/1" None) w1 =
      Done (json_response StatusOK
              (json.encode_Todo (mkTodo 1 "Updated Todo" "Updated description" true)))
        w1 ∧
    (∀ k t', k ≠ 1 → stored w1 k t' ↔ stored one_record_world k t') ∧
    nextID (repo w1) = nextID (repo one_record_world).
Proof.
  apply (put_then_get_returns_the_replacement
           (mkRequest "PUT" "/todos/1"
              (Some (mkTodo 0 "Updated Todo" "Updated description" true)))
           (mkRequest "GET" "/todos/1" None) one_record_world 1
           (mkTodo 0 "Updated Todo" "Updated description" true)).
  - apply one_record_world_ok.
  - vm_compute. by eexists.
  - by vm_compute.
  - reflexivity.
  - reflexivity.
  - reflexivity.
  - discriminate.
  - reflexivity.
  - reflexivity.
Defined.

(** X13.  A DELETE of /todos/<id> for an id that is there is answered 204
    without body and without content type, and takes that record, and only
    that one, out of the store; the todos themselves and the counter are left
    alone, so the id is not handed out again.  A GET or a second DELETE of
    the same path is then answered 404. *)
Theorem delete_then_gone
    (del get : Request) (w : World InMemoryTodoRepository) (id : Z) :
  is_Some (todos (repo w) !! id) →
  is_int id →
  Method del = MethodDelete →
  URL_Path del = item_path id →
  Method get = MethodGet →
  URL_Path get = item_path id →
  ∃ w1,
    handler.HandleTodoByID del w = Done (mkResponse None StatusNoContent None) w1 ∧
    mem w1 = mem w ∧
    nextID (repo w1) = nextID (repo w) ∧
    todos (repo w1) !! id = None ∧
    (∀ k, k ≠ id → todos (repo w1) !! k = todos (repo w) !! k) ∧
    handler.HandleTodoByID get w1 =
      Done (error_response StatusNotFound "Todo not found") w1 ∧
    handler.HandleTodoByID del w1 =
      Done (error_response StatusNotFound "Todo not found") w1.
Proof.
  intros Hk Hint Hdel Hpath Hget Hpath'.
  eexists. split.
  { rewrite (item_delete del w id Hdel Hpath Hint).
    apply (DeleteTodo_found del w id Hk). }
  cbn [mem repo todos nextID].
  split; [done|]. split; [done|].
  split; [apply lookup_delete_eq|].
  split; [intros k Hne; by apply lookup_delete_ne|].
  split.
  - rewrite (item_get get _ id Hget Hpath' Hint).
    apply GetTodoByID_missing. cbn. apply lookup_delete_eq.
  - rewrite (item_delete del _ id Hdel Hpath Hint).
    apply DeleteTodo_missing. cbn. apply lookup_delete_eq.
Qed.

(** The DELETE of the integration test, on the record of
    [one_record_world]. *)
Lemma delete_then_gone_witness :
  ∃ w1,
    handler.HandleTodoByID (mkRequest "DELETE" "/todos/1" None) one_record_world =
      Done (mkResponse None StatusNoContent None) w1 ∧
    mem w1 = mem one_record_world ∧
    nextID (repo w1) = nextID (repo one_record_world) ∧
    todos (repo w1) !! 1 = None ∧
    (∀ k, k ≠ 1 → todos (repo w1) !! k = todos (repo one_record_world) !! k) ∧
    handler.HandleTodoByID (mkRequest "GET" "/todos/1" None) w1 =
      Done (error_response StatusNotFound "Todo not found") w1 ∧
    handler.HandleTodoByID (mkRequest "DELETE" "/todos/1" None) w1 =
      Done (error_response StatusNotFound "Todo not found") w1.
Proof.
  apply (delete_then_gone (mkRequest "DELETE" "/todos/1" None)
           (mkRequest "GET" "/todos/1" None) one_record_world 1).
  - vm_compute. by eexists.
  - by vm_compute.
  - reflexivity.
  - reflexivity.
  - reflexivity.
  - reflexivity.
Defined.

(** ** The invariant of the store, request by request *)

(** X14.  Every request leaves the store in order, if it found it so: each
    key holds a todo that carries the key as its id, no key is 0, and the
    counter is positive and above every key.  The one condition is that of
    [Create]: the id a POST stores its record under is below the largest
    [int]. *)
Theorem requests_keep_store_ok (r : Request) (w : World InMemoryTodoRepository) :
  store_ok w →
  (Method r = MethodPost → id_fits r w) →
  (∃ resp w', handler.HandleTodos r w = Done resp w' ∧ store_ok w') ∧
  (∃ resp w', handler.HandleTodoByID r w = Done resp w' ∧ store_ok w').
Proof.
  intros Hok Hfits. split.
  - unfold handler.HandleTodos.
    destruct (String.eqb_spec (Method r) MethodPost) as [Hpost|_].
    + specialize (Hfits Hpost). unfold id_fits in Hfits.
      destruct (Body r) as [t|] eqn:Hb.
      * rewrite (CreateTodo_decoded r w t Hb).
        pose proof (decoded_lookup w t) as Hm.
        pose proof (decoded_world_ok w t Hok) as Hok'.
        destruct (decide (Title t = "")) as [Ht|Ht].
        { destruct (untitled_stops_use_cases (decoded_world w t) (decoded_ptr w) t 0
                      Hm Ht) as [-> _]. by do 2 eexists. }
        rewrite (CreateTodo_titled _ _ t Hm Ht).
        destruct (Create (decoded_ptr w) (decoded_world w t)) as [e w1|] eqn:E.
        -- assert (store_ok w1).
           { apply (Create_preserves_ok _ _ _ _ Hok' ) in E; [done|].
             cbn [no_overflow]. rewrite Hm. unfold assigned_id in Hfits.
             by case_bool_decide. }
           destruct e as [err|]; [destruct (errors_Is err ErrTodoAlreadyExists)|];
             by do 2 eexists.
        -- destruct (Create_cases _ _ t Hm) as [[_ E']|[(_ & _ & E')|(_ & _ & E')]];
             by rewrite E' in E.
      * rewrite (CreateTodo_malformed r w Hb). do 2 eexists. split; [done|].
        by apply malformed_world_ok.
    + destruct (String.eqb (Method r) MethodGet); by do 2 eexists.
  - destruct (handler.extractIDFromPath (URL_Path r)) as [id|e] eqn:Hid.
    + rewrite (HandleTodoByID_dispatch r w id Hid).
      destruct (String.eqb (Method r) MethodGet).
      { destruct (GetTodoByID_answer r w id) as (resp & -> & _). by do 2 eexists. }
      destruct (String.eqb (Method r) MethodPut).
      { destruct (Body r) as [t|] eqn:Hb.
        - pose proof (decoded_world_ok w t Hok) as Hok'.
          destruct (decide (Title t = "")) as [Ht|Ht].
          + destruct (writers_untitled r w id t Hb Ht) as [_ ->]. by do 2 eexists.
          + destruct (todos (repo w) !! id) as [p|] eqn:Hk.
            * rewrite (UpdateTodo_replaced r w id t Hb Ht) by (rewrite Hk; by eexists).
              do 2 eexists. split; [done|]. split; cbn.
              -- apply (ok_next w Hok).
              -- intros k [q Hq]. apply (ok_below w Hok).
                 destruct (decide (k = id)) as [->|Hne]; [rewrite Hk; by eexists|].
                 rewrite lookup_insert_ne in Hq by done. by eexists.
              -- rewrite lookup_insert_ne; [apply (ok_zero w Hok)|].
                 intros Hz. rewrite Hz in Hk. by rewrite (ok_zero w Hok) in Hk.
              -- intros k q Hq. destruct (decide (k = id)) as [->|Hne].
                 ++ rewrite lookup_insert_eq in Hq. simplify_eq.
                    exists (set_ID id t). by rewrite lookup_insert_eq.
                 ++ rewrite lookup_insert_ne in Hq by done.
                    destruct (ok_id w Hok k q Hq) as (t0 & Hm0 & Hid0).
                    exists t0. split; [|done].
                    rewrite !lookup_insert_ne; [done|..];
                      intros Heq; by apply (stored_ptr_allocated w k q Hok Hq).
            * rewrite (UpdateTodo_missing r w id t Hb Ht Hk). by do 2 eexists.
        - rewrite (UpdateTodo_malformed r id w Hb). do 2 eexists. split; [done|].
          by apply malformed_world_ok. }
      destruct (String.eqb (Method r) MethodDelete); [|by do 2 eexists].
      unfold handler.DeleteTodo, usecase.DeleteTodo, bind.
      change (domain.Delete id w) with (Delete id w).
      destruct (Delete id w) as [e w1|] eqn:E.
      * pose proof (Delete_preserves_ok w id e w1 Hok E).
        destruct e as [err|]; [destruct (errors_Is err ErrTodoNotFound)|];
          by do 2 eexists.
      * destruct (todos (repo w) !! id) as [p|] eqn:Hk.
        -- rewrite Delete_found in E by (rewrite Hk; by eexists). done.
        -- by rewrite (Delete_absent w id Hk) in E.
    + rewrite (HandleTodoByID_bad_id r w e Hid). by do 2 eexists.
Qed.

(** A POST of a todo that asks for the id 7, on a store that has just
    started. *)
Lemma requests_keep_store_ok_witness :
  ∃ resp w',
    handler.HandleTodos (mkRequest "POST" "/todos" (Some (mkTodo 7 "b" "" false)))
      (new_world ∅) = Done resp w' ∧
    store_ok w'.
Proof.
  apply (requests_keep_store_ok
           (mkRequest "POST" "/todos" (Some (mkTodo 7 "b" "" false))) (new_world ∅)).
  - apply new_world_ok.
  - intros _. by vm_compute.
Defined.

(** ** The list of all todos *)

Lemma encode_stored_ptrs (m : gmap ptr Todo) (l : list ptr) :
  (∀ p, p ∈ l → is_Some (m !! p)) →
  ∃ ts, json.encode_ptr m <$> l = json.encode_Todo <$> ts ∧
        Forall2 (λ p t, m !! p = Some t) l ts.
Proof.
  induction l as [|p l IH]; intros H.
  - exists []. split; [done|constructor].
  - destruct (H p) as [t Ht]; [set_solver|].
    destruct IH as (ts & E & F); [intros q Hq; apply H; set_solver|].
    exists (t :: ts). split; [|by constructor].
    rewrite !fmap_cons, E. f_equal. unfold json.encode_ptr. by rewrite Ht.
Qed.

(** The todos behind a list of stored pointers have as many distinct ids as
    the list has distinct pointers. *)
Lemma ids_of_stored_ptrs w (l : list ptr) (ts : list Todo) :
  store_ok w →
  (∀ p, p ∈ l → ∃ k, todos (repo w) !! k = Some p) →
  Forall2 (λ p t, mem w !! p = Some t) l ts →
  (λ t, todos (repo w) !! ID t) <$> ts = Some <$> l.
Proof.
  intros Hok Hl F. induction F as [|p t l ts Hp F IH]; [done|].
  rewrite !fmap_cons. rewrite IH by (intros q Hq; apply Hl; set_solver).
  f_equal. destruct (Hl p) as [k Hk]; [set_solver|].
  destruct (ok_id w Hok k p Hk) as (t' & Hm & <-). by simplify_eq.
Qed.

(** X15.  GET /todos on a store that is in order is answered 200 with a JSON
    array that has one element for each record and nothing else: as many
    elements as there are records, each the encoding of a stored todo, every
    stored todo among them, and no id twice.  (The order is that of Go's map
    iteration, which the property does not depend on.) *)
Theorem listing_shows_every_record (r : Request) (w : World InMemoryTodoRepository) :
  store_ok w →
  Method r = MethodGet →
  ∃ ts,
    handler.HandleTodos r w =
      Done (json_response StatusOK (JArray (json.encode_Todo <$> ts))) w ∧
    length ts = size (todos (repo w)) ∧
    (∀ t, t ∈ ts ↔ ∃ k, stored w k t) ∧
    NoDup (ID <$> ts).
Proof.
  intros Hok Hget.
  destruct (values_of_store (todos (repo w))) as [Hlen Hin].
  pose proof (values_of_store_NoDup w Hok) as Hnd.
  set (l := snd <$> map_to_list (todos (repo w))) in *.
  assert (Hl : ∀ p, p ∈ l → ∃ k, todos (repo w) !! k = Some p)
    by (intros p Hp; by apply Hin).
  destruct (encode_stored_ptrs (mem w) l) as (ts & E & F).
  { intros p [k Hk]%Hl. destruct (ok_id w Hok k p Hk) as (t & Hm & _). by eexists. }
  exists ts. split; [|split; [|split]].
  - rewrite (HandleTodos_get r w Hget), GetAllTodos_answer. fold l.
    unfold json_response. by rewrite E.
  - rewrite <- Hlen. symmetry. by eapply Forall2_length.
  - intros t. split.
    + intros [i Hi]%list_elem_of_lookup.
      destruct (Forall2_lookup_r _ _ _ _ _ F Hi) as (p & Hp & Hm).
      destruct (Hl p) as [k Hk]; [by eapply list_elem_of_lookup_2|].
      exists k, p. done.
    + intros (k & p & Hk & Hm).
      assert (Hp : p ∈ l) by (apply Hin; by eexists).
      apply list_elem_of_lookup in Hp as [i Hi].
      destruct (Forall2_lookup_l _ _ _ _ _ F Hi) as (t' & Ht' & Hm').
      simplify_eq. by eapply list_elem_of_lookup_2.
  - apply (NoDup_fmap_1 (λ k, todos (repo w) !! k)).
    rewrite <- list_fmap_compose.
    change ((λ k, todos (repo w) !! k) ∘ ID) with (λ t, todos (repo w) !! ID t).
    rewrite (ids_of_stored_ptrs w l ts Hok Hl F).
    apply NoDup_fmap_2; [apply _|done].
Qed.

Lemma two_records_world_ok : store_ok two_records_world.
Proof.
  split.
  - by vm_compute.
  - intros k [p Hp]. cbn in Hp.
    apply lookup_insert_Some in Hp as [[<- _]|[_ Hp]]; [by vm_compute|].
    apply lookup_singleton_Some in Hp as [<- _]. by vm_compute.
  - by vm_compute.
  - intros k p Hp. cbn in Hp.
    apply lookup_insert_Some in Hp as [[<- <-]|[_ Hp]];
      [eexists; split; [by vm_compute|done]|].
    apply lookup_singleton_Some in Hp as [<- <-].
    eexists; split; [by vm_compute|done].
Qed.

(** The list of [two_records_world]. *)
Lemma listing_shows_every_record_witness :
  ∃ ts,
    handler.HandleTodos (mkRequest "GET" "/todos" None) two_records_world =
      Done (json_response StatusOK (JArray (json.encode_Todo <$> ts)))
        two_records_world ∧
    length ts = size (todos (repo two_records_world)) ∧
    (∀ t, t ∈ ts ↔ ∃ k, stored two_records_world k t) ∧
    NoDup (ID <$> ts).
Proof.
  apply (listing_shows_every_record (mkRequest "GET" "/todos" None)
           two_records_world).
  - apply two_records_world_ok.
  - reflexivity.
Defined.

(** ** Paths without an id *)

(** X16.  A path that has no second piece (nothing but slashes around a single
    piece, as in /todos/ or /) has no id: [extractIDFromPath] fails with
    "invalid path", and the item route answers 400 "Invalid todo ID" whatever
    the method, without touching anything. *)
Theorem path_without_id_is_refused (r : Request) (w : World InMemoryTodoRepository) :
  strings.in_cutset "/" (strings.Trim (URL_Path r) "/") = false →
  handler.extractIDFromPath (URL_Path r) = Err (errors_New "invalid path") ∧
  handler.HandleTodoByID r w =
    Done (error_response StatusBadRequest "Invalid todo ID") w.
Proof.
  intros Hone.
  assert (E : handler.extractIDFromPath (URL_Path r) = Err (errors_New "invalid path")).
  { unfold handler.extractIDFromPath. by rewrite (Split_no_sep _ _ Hone). }
  split; [done|]. by rewrite (HandleTodoByID_bad_id r w _ E).
Qed.

(** DELETE /todos/ on a store with one record. *)
Lemma path_without_id_is_refused_witness :
  handler.extractIDFromPath "/todos/" = Err (errors_New "invalid path") ∧
  handler.HandleTodoByID (mkRequest "DELETE" "/todos/" None) one_record_world =
    Done (error_response StatusBadRequest "Invalid todo ID") one_record_world.
Proof.
  apply (path_without_id_is_refused (mkRequest "DELETE" "/todos/" None)
           one_record_world).
  reflexivity.
Defined.

(** ** Creating and deleting *)

(** X17.  Deleting what [Create] has just stored undoes the insertion but not
    the counter: the store maps the same ids to the same todos as before the
    two calls, while the counter stays where [Create] left it, above the id,
    so that the id is not handed out a second time. *)
Theorem create_then_delete_restores_the_records
    (w w1 : World InMemoryTodoRepository) (todo : ptr) (t : Todo) :
  store_ok w →
  no_overflow (CallCreate todo) w →
  mem w !! todo = Some t →
  Create todo w = Done None w1 →
  ∃ w2,
    Delete (assigned_id w t) w1 = Done None w2 ∧
    todos (repo w2) = todos (repo w) ∧
    nextID (repo w2) = nextID (repo w1) ∧
    assigned_id w t < nextID (repo w2).
Proof.
  intros Hok Hno Hm Hc. pose proof (ok_next w Hok) as Hnext.
  unfold assigned_id. cbn [no_overflow] in Hno. rewrite Hm in Hno.
  destruct (Create_cases w todo t Hm) as [[Hz E] | [[Hnz [Hocc E]] | [Hnz [Hk E]]]];
    rewrite E in Hc; simplify_eq.
  - assert (Hfree : todos (repo w) !! nextID (repo w) = None).
    { destruct (todos (repo w) !! nextID (repo w)) as [q|] eqn:Hq; [|done].
      assert (nextID (repo w) < nextID (repo w)); [|lia].
      apply (ok_below w Hok). by eexists. }
    rewrite (bool_decide_eq_true_2 (ID t = 0)) in * by done.
    eexists. split.
    { apply Delete_found. cbn. rewrite lookup_insert_eq. by eexists. }
    cbn. split; [by apply delete_insert_id|]. split; [done|].
    rewrite wrap_succ by lia. lia.
  - rewrite (bool_decide_eq_false_2 (ID t = 0)) in * by done.
    eexists. split.
    { apply Delete_found. cbn. rewrite lookup_insert_eq. by eexists. }
    cbn. split; [by apply delete_insert_id|]. split; [done|].
    case_bool_decide; [rewrite wrap_succ by lia|]; lia.
Qed.

(** The todo of [sample_heap] that asks for the id 7, on a store that has
    just started. *)
Lemma create_then_delete_restores_the_records_witness :
  ∃ w2,
    Delete 7 (mkWorld sample_heap {| todos := {[ 7 := 2%positive ]}; nextID := 8 |}) =
      Done None w2 ∧
    todos (repo w2) = ∅ ∧
    nextID (repo w2) = 8 ∧
    7 < nextID (repo w2).
Proof.
  apply (create_then_delete_restores_the_records (new_world sample_heap)
           (mkWorld sample_heap {| todos := {[ 7 := 2%positive ]}; nextID := 8 |})
           2%positive (mkTodo 7 "b" "" false)).
  - apply new_world_ok.
  - by vm_compute.
  - by vm_compute.
  - by vm_compute.
Defined.
